(** * The tool-calling loop of [skillset_scripts/test-openai.py] and the
      error classes of [test_scripts/tansive_client/exceptions.py]

    - [Py]: the data of the script.  A Python [str] is a sequence of code
      points; [json.loads] and [json.dumps], the two library calls of the
      script, are written out as CPython's [json] package behaves on the
      values the script passes to them.
    - [Script]: [main] of [test-openai.py] as a machine whose control points
      are the head of the [while True] loop and the [for] loop over the tool
      calls, with the message list and the effects (completion requests,
      prints, [json.loads] calls, appends) in the state.
    - [Exceptions]: the classes of [exceptions.py].
    - [Invoker]: the invoker of [tansive_client/client.py], a module that
      [__init__.py] imports and that is not among the sources.
    - [Stubs]: endpoints, tool calls and surfaces to run the definitions on.

    The properties follow the definitions: the fuel of the decoder, the
    machine, the exception classes, the invoker. *)

From Stdlib Require Import String Ascii.
From Stdlib Require Import List NArith ZArith Bool Arith Lia.
Import ListNotations.

Set Implicit Arguments.

(* ================================================================== *)
(** ** Python strings and the [json] calls of the script *)
(* ================================================================== *)

Module Py.

Local Open Scope N_scope.

(** A [str] is a sequence of Unicode code points. *)
Definition str := list N.

(** An ASCII literal. *)
Definition lit (s : string) : str :=
  map N_of_ascii (list_ascii_of_string s).
Arguments lit s%_string.

Definition dquote : N := 34.
Definition backslash : N := 92.
Definition newline : N := 10.

(** [quoted s] is the literal [s] between double quotes. *)
Definition quoted (s : string) : str := dquote :: lit s ++ [dquote].
Arguments quoted s%_string.

Fixpoint str_eqb (a b : str) : bool :=
  match a, b with
  | [], [] => true
  | x :: a', y :: b' => N.eqb x y && str_eqb a' b'
  | _, _ => false
  end.

(** Truth value of an [Optional[str]]: [None] and the empty string are
    false. *)
Definition truthy (o : option str) : bool :=
  match o with
  | Some (_ :: _) => true
  | _ => false
  end.

(** [o != s] for an [Optional[str]] and a [str]. *)
Definition differs (o : option str) (s : str) : bool :=
  match o with
  | Some r => negb (str_eqb r s)
  | None => true
  end.

(** *** [json.loads]

    The decoder of [json.decoder] and [json.scanner] with the default
    settings ([strict=True], no hooks).  The script never reads the decoded
    value, it only depends on whether the call raises, so numbers keep their
    lexeme and objects keep their members in the order read. *)

#[warnings="-register-all"]
Inductive json : Type :=
| JNull
| JBool (b : bool)
| JNumber (lexeme : str)
| JConstant (name : str)            (* NaN, Infinity, -Infinity *)
| JString (s : str)
| JArray (items : list json)
| JObject (members : list (str * json)).

(** [WHITESPACE = re.compile(r'[ \t\n\r]*')] *)
Definition is_ws (c : N) : bool :=
  N.eqb c 32 || N.eqb c 9 || N.eqb c 10 || N.eqb c 13.

Fixpoint skip_ws (s : str) : str :=
  match s with
  | c :: r => if is_ws c then skip_ws r else s
  | [] => []
  end.

(** [s.startswith(p)], with what follows the prefix. *)
Fixpoint strip_prefix (p s : str) : option str :=
  match p, s with
  | [], _ => Some s
  | x :: p', y :: s' => if N.eqb x y then strip_prefix p' s' else None
  | _ :: _, [] => None
  end.

Definition is_digit (c : N) : bool := N.leb 48 c && N.leb c 57.

Definition hex_value (c : N) : option N :=
  if N.leb 48 c && N.leb c 57 then Some (c - 48)
  else if N.leb 97 c && N.leb c 102 then Some (c - 87)
  else if N.leb 65 c && N.leb c 70 then Some (c - 55)
  else None.

(** Four hexadecimal digits after a backslash-u. *)
Definition decode_uXXXX (s : str) : option (N * str) :=
  match s with
  | a :: b :: c :: d :: r =>
      match hex_value a, hex_value b, hex_value c, hex_value d with
      | Some x, Some y, Some z, Some w =>
          Some (4096 * x + 256 * y + 16 * z + w, r)
      | _, _, _, _ => None
      end
  | _ => None
  end.

(** [BACKSLASH]: the one-letter escapes. *)
Definition backslash_escape (c : N) : option N :=
  if N.eqb c 34 then Some 34
  else if N.eqb c 92 then Some 92
  else if N.eqb c 47 then Some 47
  else if N.eqb c 98 then Some 8
  else if N.eqb c 102 then Some 12
  else if N.eqb c 110 then Some 10
  else if N.eqb c 114 then Some 13
  else if N.eqb c 116 then Some 9
  else None.

(** One round of the loop of [scanstring], after the opening quote: the
    decoded string and the rest of the input after the closing quote.
    [acc] holds the decoded code points, last first; [continue] is the loop
    on what is left. *)
Definition scanstring_round (continue : str -> str -> option (str * str))
    (s : str) (acc : str) : option (str * str) :=
  match s with
  | [] => None                                      (* unterminated *)
  | c :: r =>
      if N.eqb c dquote then Some (rev acc, r)
      else if N.eqb c backslash then
        match r with
        | [] => None
        | e :: r1 =>
            if N.eqb e 117 then
              match decode_uXXXX r1 with
              | None => None
              | Some (uni, r2) =>
                  if N.leb 55296 uni && N.leb uni 56319 then
                    match strip_prefix [backslash; 117] r2 with
                    | Some r3 =>
                        match decode_uXXXX r3 with
                        | None => None
                        | Some (uni2, r4) =>
                            if N.leb 56320 uni2 && N.leb uni2 57343 then
                              continue r4
                                (65536 + N.lor (N.shiftl (uni - 55296) 10)
                                               (uni2 - 56320) :: acc)
                            else continue r2 (uni :: acc)
                        end
                    | None => continue r2 (uni :: acc)
                    end
                  else continue r2 (uni :: acc)
              end
            else
              match backslash_escape e with
              | Some ch => continue r1 (ch :: acc)
              | None => None
              end
        end
      else if N.ltb c 32 then None                   (* control character *)
      else continue r (c :: acc)
  end.

(** [scanstring]: the rounds, at most [fuel] of them. *)
Fixpoint scanstring (fuel : nat) (s : str) (acc : str) : option (str * str) :=
  match fuel with
  | O => None
  | S fuel' => scanstring_round (scanstring fuel') s acc
  end.

(** A string after its opening quote; a round reads at least one code
    point, so the length of the input is fuel enough. *)
Definition py_scanstring (s : str) : option (str * str) :=
  scanstring (length s) s [].

Fixpoint span_digits (s : str) : str * str :=
  match s with
  | c :: r =>
      if is_digit c then let (ds, r') := span_digits r in (c :: ds, r')
      else ([], s)
  | [] => ([], [])
  end.

(** [NUMBER_RE] in its parts: an optional minus sign, then a zero or a
    digit from 1 to 9 followed by digits; then, each optional, a dot with at
    least one digit and an [e] or [E] with an optional sign and at least one
    digit.  A fraction or an exponent without digits is not consumed.  Each
    part gives what it matched and what is left. *)
Definition match_sign (s : str) : str * str :=
  match strip_prefix [45] s with
  | Some r => ([45], r)
  | None => ([], s)
  end.

Definition match_integer (s : str) : option (str * str) :=
  match s with
  | c :: r =>
      if N.eqb c 48 then Some ([c], r)
      else if is_digit c then
             let (ds, r') := span_digits r in Some (c :: ds, r')
           else None
  | [] => None
  end.

Definition match_fraction (s : str) : str * str :=
  match strip_prefix [46] s with
  | Some r =>
      match span_digits r with
      | ([], _) => ([], s)
      | (ds, r') => (46 :: ds, r')
      end
  | None => ([], s)
  end.

Definition match_exponent_sign (s : str) : str * str :=
  match s with
  | x :: r => if N.eqb x 45 || N.eqb x 43 then ([x], r) else ([], s)
  | [] => ([], s)
  end.

Definition match_exponent (s : str) : str * str :=
  match s with
  | e :: r =>
      if N.eqb e 101 || N.eqb e 69 then
        let (sg, r1) := match_exponent_sign r in
        match span_digits r1 with
        | ([], _) => ([], s)
        | (ds, r') => (e :: sg ++ ds, r')
        end
      else ([], s)
  | [] => ([], s)
  end.

Definition match_number (s : str) : option (str * str) :=
  let (sign, s1) := match_sign s in
  match match_integer s1 with
  | None => None
  | Some (int_part, s2) =>
      let (frac, s3) := match_fraction s2 in
      let (expo, s4) := match_exponent s3 in
      Some (sign ++ int_part ++ frac ++ expo, s4)
  end.

(** The literals [null], [true], [false], [NaN], [Infinity], [-Infinity]. *)
Definition match_literal (s : str) : option (json * str) :=
  match strip_prefix (lit "null") s with
  | Some r => Some (JNull, r)
  | None =>
  match strip_prefix (lit "true") s with
  | Some r => Some (JBool true, r)
  | None =>
  match strip_prefix (lit "false") s with
  | Some r => Some (JBool false, r)
  | None =>
  match match_number s with
  | Some (lexeme, r) => Some (JNumber lexeme, r)
  | None =>
  match strip_prefix (lit "NaN") s with
  | Some r => Some (JConstant (lit "NaN"), r)
  | None =>
  match strip_prefix (lit "Infinity") s with
  | Some r => Some (JConstant (lit "Infinity"), r)
  | None =>
  match strip_prefix (lit "-Infinity") s with
  | Some r => Some (JConstant (lit "-Infinity"), r)
  | None => None
  end end end end end end end.

(** The body of [_scan_once]: a string, an object, an array or a literal.
    [members] and [items] are the loops of [JSONObject] and [JSONArray],
    entered once the empty object and the empty array are excluded. *)
Definition scan_value
    (members : str -> list (str * json) -> option (json * str))
    (items : str -> list json -> option (json * str))
    (s : str) : option (json * str) :=
  match s with
  | [] => None
  | c :: r =>
      if N.eqb c dquote then
        match py_scanstring r with
        | Some (v, r') => Some (JString v, r')
        | None => None
        end
      else if N.eqb c 123 then
        match strip_prefix [125] (skip_ws r) with
        | Some r' => Some (JObject [], r')
        | None => members (skip_ws r) []
        end
      else if N.eqb c 91 then
        match strip_prefix [93] (skip_ws r) with
        | Some r' => Some (JArray [], r')
        | None => items (skip_ws r) []
        end
      else match_literal s
  end.

(** One round of the loop of [JSONObject], at the opening quote of a
    property name: the name, the colon, the value, and then the closing
    brace or a comma and the next round. *)
Definition object_round
    (scan_once : str -> option (json * str))
    (continue : str -> list (str * json) -> option (json * str))
    (s : str) (acc : list (str * json)) : option (json * str) :=
  match strip_prefix [dquote] s with
  | Some r =>
      match py_scanstring r with
      | Some (key, r1) =>
          match strip_prefix [58] (skip_ws r1) with
          | Some r2 =>
              match scan_once (skip_ws r2) with
              | Some (v, r3) =>
                  match strip_prefix [125] (skip_ws r3) with
                  | Some r4 => Some (JObject (rev ((key, v) :: acc)), r4)
                  | None =>
                      match strip_prefix [44] (skip_ws r3) with
                      | Some r4 => continue (skip_ws r4) ((key, v) :: acc)
                      | None => None
                      end
                  end
              | None => None
              end
          | None => None
          end
      | None => None
      end
  | None => None
  end.

(** One round of the loop of [JSONArray], at a value: the value, and then
    the closing bracket or a comma and the next round. *)
Definition array_round
    (scan_once : str -> option (json * str))
    (continue : str -> list json -> option (json * str))
    (s : str) (acc : list json) : option (json * str) :=
  match scan_once s with
  | Some (v, r1) =>
      match strip_prefix [93] (skip_ws r1) with
      | Some r2 => Some (JArray (rev (v :: acc)), r2)
      | None =>
          match strip_prefix [44] (skip_ws r1) with
          | Some r2 => continue (skip_ws r2) (v :: acc)
          | None => None
          end
      end
  | None => None
  end.

(** [scan_once] and the two loops.  The fuel bounds the depth of the calls;
    twice the length of the input is enough ([scan_once_fuel] below). *)
Fixpoint scan_once (fuel : nat) (s : str) : option (json * str) :=
  match fuel with
  | O => None
  | S fuel' => scan_value (parse_members fuel') (parse_items fuel') s
  end

with parse_members (fuel : nat) (s : str) (acc : list (str * json))
  : option (json * str) :=
  match fuel with
  | O => None
  | S fuel' => object_round (scan_once fuel') (parse_members fuel') s acc
  end

with parse_items (fuel : nat) (s : str) (acc : list json)
  : option (json * str) :=
  match fuel with
  | O => None
  | S fuel' => array_round (scan_once fuel') (parse_items fuel') s acc
  end.

(** [JSONDecoder.decode] with a given fuel: surrounding whitespace is
    skipped and nothing may follow the value. *)
Definition decode (fuel : nat) (s : str) : option json :=
  match scan_once fuel (skip_ws s) with
  | Some (v, r) =>
      match skip_ws r with
      | [] => Some v
      | _ :: _ => None
      end
  | None => None
  end.

(** [json.loads(s)] for a [str]: [None] stands for a raised exception
    ([JSONDecodeError]).  A leading byte-order mark is refused.  The limits
    of the interpreter (recursion depth, digits of an integer) are not
    part of the model. *)
Definition json_loads (s : str) : option json :=
  match strip_prefix [65279] s with
  | Some _ => None
  | None => decode (2 * length s + 2) s
  end.

(** A scanner that, when it succeeds, leaves less than it was given. *)
Definition shorter {A : Type} (f : str -> option (A * str)) : Prop :=
  forall s v r, f s = Some (v, r) -> (length r < length s)%nat.

(** *** [json.dumps]

    The encoder with the default settings ([ensure_ascii=True], separators
    [", "] and [": "]), on the one kind of value the script serializes: a
    [dict] from [str] to [str], in insertion order. *)

Definition hex_digit (n : N) : N := if N.ltb n 10 then 48 + n else 87 + n.

(** ['\\u{0:04x}'.format(n)] *)
Definition u_escape (n : N) : str :=
  [backslash; 117;
   hex_digit (N.modulo (N.shiftr n 12) 16); hex_digit (N.modulo (N.shiftr n 8) 16);
   hex_digit (N.modulo (N.shiftr n 4) 16); hex_digit (N.modulo n 16)].

(** [ESCAPE_ASCII] and [ESCAPE_DCT]: everything outside [' '..'~'], the
    double quote and the backslash are replaced. *)
Definition escape_char (c : N) : str :=
  if N.eqb c 34 then [backslash; 34]
  else if N.eqb c 92 then [backslash; backslash]
  else if N.eqb c 10 then [backslash; 110]
  else if N.eqb c 13 then [backslash; 114]
  else if N.eqb c 9 then [backslash; 116]
  else if N.eqb c 12 then [backslash; 102]
  else if N.eqb c 8 then [backslash; 98]
  else if N.leb 32 c && N.leb c 126 then [c]
  else if N.ltb c 65536 then u_escape c
  else
    let v := c - 65536 in
    u_escape (N.lor 55296 (N.land (N.shiftr v 10) 1023))
    ++ u_escape (N.lor 56320 (N.land v 1023)).

Definition encode_basestring_ascii (s : str) : str :=
  dquote :: flat_map escape_char s ++ [dquote].

Fixpoint join (sep : str) (parts : list str) : str :=
  match parts with
  | [] => []
  | [p] => p
  | p :: rest => p ++ sep ++ join sep rest
  end.

Definition json_dumps (d : list (str * str)) : str :=
  lit "{"
  ++ join (lit ", ")
       (map (fun kv => encode_basestring_ascii (fst kv) ++ lit ": "
                       ++ encode_basestring_ascii (snd kv)) d)
  ++ lit "}".

End Py.

Import Py.

(* ================================================================== *)
(** ** [skillset_scripts/test-openai.py] *)
(* ================================================================== *)

Module Script.

(** *** The data of the completion API, as the script reads it *)

Record FunctionCall := { fn_name : str; fn_arguments : str }.

(** [tool_call.id] and [tool_call.function]. *)
Record ToolCall := { tc_id : str; tc_function : FunctionCall }.

(** [choice.message]: [content] and [tool_calls] may each be [None]. *)
Record ChatCompletionMessage := {
  content : option str;
  tool_calls : option (list ToolCall)
}.

Record Choice := {
  message : ChatCompletionMessage;
  finish_reason : option str
}.

Record ChatCompletion := { choices : list Choice }.

(** An element of [messages]: the two literal dictionaries of line 49 and
    50, the dump of the assistant's message (line 81) and the dictionary of
    line 98. *)
Inductive Message : Type :=
| RoleContent (role content : str)
| AssistantDump (m : ChatCompletionMessage)
| ToolResult (tool_call_id content : str).

Definition role_of (m : Message) : str :=
  match m with
  | RoleContent role _ => role
  | AssistantDump _ => lit "assistant"
  | ToolResult _ _ => lit "tool"
  end.

(** *** The constants of the script *)

Definition LLM_BLOCKED_BY_POLICY_PROMPT : str :=
  [newline]
  ++ lit "All tools with tag [TansivePolicy: true] are governed by Tansive policy."
  ++ [newline]
  ++ lit "If any tool call with such tag returns an error containing "
  ++ quoted "This operation is blocked by Tansive policy"
  ++ lit ", you must respond to the user with:"
  ++ [newline]
  ++ quoted "I tried to use Skill: <tool-name> for <reason> but it was blocked by Tansive policy. Please contact the administrator of your Tansive system to obtain access."
  ++ lit " Do not attempt to bypass, hallucinate, or reroute the request. Respect the policy boundaries."
  ++ [newline].

Record PropertySpec := { prop_type : str; prop_description : str }.

Record Parameters := {
  params_type : str;
  properties : list (str * PropertySpec);
  required : list str
}.

Record FunctionSpec := {
  spec_name : str;
  spec_description : str;
  parameters : Parameters
}.

Record Tool := { tool_type : str; tool_function : FunctionSpec }.

Definition MOCK_TOOLS : list Tool :=
  [ {| tool_type := lit "function";
       tool_function :=
         {| spec_name := lit "get_weather";
            spec_description :=
              lit "Get the current weather in a given location";
            parameters :=
              {| params_type := lit "object";
                 properties :=
                   [ (lit "location",
                      {| prop_type := lit "string";
                         prop_description :=
                           lit "The city and state, e.g. San Francisco, CA" |}) ];
                 required := [lit "location"] |} |} |} ].

Definition question : str := lit "What's the weather like in San Francisco?".
Definition model : str := lit "gpt-4".

(** The dictionary of lines 87 to 91; the degree sign is U+00B0. *)
Definition mock_response : list (str * str) :=
  [ (lit "temperature", lit "72" ++ [176%N] ++ lit "F");
    (lit "condition", lit "Sunny");
    (lit "humidity", lit "45%") ].

(** *** The completion endpoint *)

(** The keyword arguments of [openai_client.chat.completions.create]. *)
Record Request := {
  req_model : str;
  req_messages : list Message;
  req_tools : list Tool;
  req_seed : Z
}.

(** The endpoint answers a request with a completion, or the call raises
    ([None]). *)
Definition Client := Request -> option ChatCompletion.

(** *** Effects and state *)

Inductive Line : Type :=
| Thinking (text : str)                    (* stdout, line 71 *)
| FinalResponse (text : option str)        (* stdout, line 74 *)
| OpenAICallFailed                         (* stderr, line 63 *)
| ToolCallFailed.                          (* stderr, line 94 *)

Inductive Event : Type :=
| EvCreate (request : Request)             (* a completion request is sent *)
| EvPrint (line : Line)
| EvAppend (m : Message)                   (* [messages.append(m)] *)
| EvLoads (tool_call : ToolCall).          (* [json.loads] on its arguments *)

(** Where [main] stands: at the head of the [while True] loop, in the [for]
    loop with the tool calls still to run, or stopped: by [break] (the
    function returns), by [sys.exit], or by an exception no handler
    catches. *)
Inductive Control : Type :=
| LoopHead
| ForLoop (pending : list ToolCall)
| Returned
| SysExit (status : Z)
| Uncaught (exception : str).

(** [events] holds the effects so far, the latest first. *)
Record State := {
  messages : list Message;
  events : list Event;
  control : Control
}.

Definition emit (e : Event) (st : State) : State :=
  {| messages := messages st; events := e :: events st;
     control := control st |}.

Definition append (m : Message) (st : State) : State :=
  {| messages := messages st ++ [m]; events := EvAppend m :: events st;
     control := control st |}.

Definition goto (c : Control) (st : State) : State :=
  {| messages := messages st; events := events st; control := c |}.

(** The effects in the order they happened. *)
Definition trace (st : State) : list Event := rev (events st).

Definition halted (st : State) : bool :=
  match control st with
  | LoopHead | ForLoop _ => false
  | Returned | SysExit _ | Uncaught _ => true
  end.

(** *** [main] *)

(** Lines 48 to 51. *)
Definition initial : State :=
  {| messages := [ RoleContent (lit "system") LLM_BLOCKED_BY_POLICY_PROMPT;
                   RoleContent (lit "user") question ];
     events := [];
     control := LoopHead |}.

(** The request of lines 56 to 61 for the messages so far. *)
Definition request_for (messages : list Message) : Request :=
  {| req_model := model; req_messages := messages;
     req_tools := MOCK_TOOLS; req_seed := 0 |}.

(** [sys.stdout] as the interpreter opens it: a UTF-8 text stream with
    strict errors.  Writing a text that holds a lone surrogate (U+D800 to
    U+DFFF) raises [UnicodeEncodeError]; every other text is written.  (The
    error stream replaces what it cannot encode and never raises.) *)
Definition is_surrogate (c : N) : bool := N.leb 55296 c && N.leb c 57343.

Definition stdout_accepts (text : str) : bool :=
  forallb (fun c => negb (is_surrogate c)) text.

(** The texts of lines 71 and 74; the first begins with U+1F914. *)
Definition thinking_line (text : str) : str :=
  129300%N :: lit " Thinking: " ++ text.

Definition final_line (text : option str) : str :=
  lit "Final response: " ++ match text with
                            | Some t => t
                            | None => lit "None"
                            end.

(** [print(text)]: the state after the line is written, or [None] when the
    stream raises. *)
Definition print_stdout (text : str) (line : Line) (st : State)
  : option State :=
  if stdout_accepts text then Some (emit (EvPrint line) st) else None.

(** Lines 55 to 81: one pass from the head of the loop to the [for]. *)
Definition loop_head (openai_client : Client) (st : State) : State :=
  let request := request_for (messages st) in
  let st := emit (EvCreate request) st in
  match openai_client request with
  | None => goto (SysExit 1) (emit (EvPrint OpenAICallFailed) st)
  | Some response =>
      match choices response with
      | [] => goto (Uncaught (lit "IndexError")) st
      | choice :: _ =>
          let message := message choice in
          let finish_reason := finish_reason choice in
          let thought :=
            match content message with
            | Some (c :: text) =>
                print_stdout (thinking_line (c :: text))
                             (Thinking (c :: text)) st
            | _ => Some st
            end in
          match thought with
          | None => goto (Uncaught (lit "UnicodeEncodeError")) st
          | Some st =>
              if truthy finish_reason
                 && differs finish_reason (lit "tool_calls")
              then
                match print_stdout (final_line (content message))
                                   (FinalResponse (content message)) st with
                | Some st' => goto Returned st'
                | None => goto (Uncaught (lit "UnicodeEncodeError")) st
                end
              else
                match tool_calls message with
                | None | Some [] => goto Returned st
                | Some (c :: rest) =>
                    goto (ForLoop (c :: rest))
                         (append (AssistantDump message) st)
                end
          end
      end
  end.

(** Lines 85 to 92, the body of the [try]: the tool response, or [None]
    when an exception is raised. *)
Definition try_body (tool_call : ToolCall) : option str :=
  match json_loads (fn_arguments (tc_function tool_call)) with
  | Some tool_args => Some (json_dumps mock_response)
  | None => None
  end.

(** Lines 84 to 103: the body of the [for] loop for one tool call. *)
Definition for_body (tool_call : ToolCall) (rest : list ToolCall) (st : State)
  : State :=
  let st := emit (EvLoads tool_call) st in
  match try_body tool_call with
  | None => goto (SysExit 1) (emit (EvPrint ToolCallFailed) st)
  | Some tool_response =>
      goto (ForLoop rest) (append (ToolResult (tc_id tool_call) tool_response) st)
  end.

Definition step (openai_client : Client) (st : State) : State :=
  match control st with
  | LoopHead => loop_head openai_client st
  | ForLoop [] => goto LoopHead st
  | ForLoop (tool_call :: rest) => for_body tool_call rest st
  | Returned | SysExit _ | Uncaught _ => st
  end.

Fixpoint run (openai_client : Client) (n : nat) (st : State) : State :=
  match n with
  | O => st
  | S n' => run openai_client n' (step openai_client st)
  end.

(** [main()] observed after [n] steps. *)
Definition main (openai_client : Client) (n : nat) : State :=
  run openai_client n initial.

(** *** Notions the statements below use *)

(** [json.loads] accepts the arguments of the call. *)
Definition parses (tool_call : ToolCall) : bool :=
  match json_loads (fn_arguments (tc_function tool_call)) with
  | Some _ => true
  | None => false
  end.

(** The calls before the first one whose arguments do not parse. *)
Fixpoint parsed_prefix (calls : list ToolCall) : list ToolCall :=
  match calls with
  | c :: rest => if parses c then c :: parsed_prefix rest else []
  | [] => []
  end.

(** The dictionary of line 98 for a call. *)
Definition tool_result (tool_call : ToolCall) : Message :=
  ToolResult (tc_id tool_call) (json_dumps mock_response).

Definition is_tool_result (m : Message) : bool :=
  match m with
  | ToolResult _ _ => true
  | _ => false
  end.

Definition is_assistant (m : Message) : bool :=
  match m with
  | AssistantDump _ => true
  | _ => false
  end.

(** The tool calls an assistant message requests. *)
Definition requested (m : ChatCompletionMessage) : list ToolCall :=
  match tool_calls m with
  | Some calls => calls
  | None => []
  end.

(** Completion requests sent so far. *)
Definition requests_sent (st : State) : nat :=
  length (filter (fun e => match e with EvCreate _ => true | _ => false end)
                 (events st)).

(** The effects of running the calls [done], the latest first. *)
Definition ran (done : list ToolCall) : list Event :=
  rev (flat_map (fun c => [EvLoads c; EvAppend (tool_result c)]) done).

(** The tool calls of the assistant message that is nearest to the end of
    the list; the argument lists the messages from the last to the first.
    Only tool results may stand between that message and the end. *)
Fixpoint calls_in_force (latest_first : list Message) : list ToolCall :=
  match latest_first with
  | AssistantDump m :: _ => requested m
  | ToolResult _ _ :: older => calls_in_force older
  | RoleContent _ _ :: _ => []
  | [] => []
  end.

(** Every tool result answers a call of the assistant message in force
    (messages from the last to the first). *)
Fixpoint answers_follow (latest_first : list Message) : Prop :=
  match latest_first with
  | [] => True
  | ToolResult id _ :: older =>
      In id (map tc_id (calls_in_force older)) /\ answers_follow older
  | _ :: older => answers_follow older
  end.

(** The tool calls of the assistant message appended last (effects from
    the latest to the first). *)
Fixpoint calls_announced (latest_first : list Event) : list ToolCall :=
  match latest_first with
  | EvAppend (AssistantDump m) :: _ => requested m
  | _ :: older => calls_announced older
  | [] => []
  end.

(** Every [json.loads] and every appended tool result is for a call of the
    assistant message appended last before it. *)
Fixpoint announced_first (latest_first : list Event) : Prop :=
  match latest_first with
  | [] => True
  | EvLoads c :: older =>
      In c (calls_announced older) /\ announced_first older
  | EvAppend (ToolResult id _) :: older =>
      In id (map tc_id (calls_announced older)) /\ announced_first older
  | _ :: older => announced_first older
  end.

(** The messages a sequence of effects appends. *)
Definition appended (effects : list Event) : list Message :=
  flat_map (fun e => match e with EvAppend m => [m] | _ => [] end) effects.

(** What holds at every control point of [main]. *)
Definition invariant (st : State) : Prop :=
  answers_follow (rev (messages st))
  /\ announced_first (events st)
  /\ messages st = messages initial ++ appended (trace st)
  /\ match control st with
     | ForLoop pending =>
         (exists done, calls_in_force (rev (messages st)) = done ++ pending)
         /\ (exists done, calls_announced (events st) = done ++ pending)
     | _ => True
     end.

(** The machine is at the head of the loop or in the [for] loop with calls
    that all parse. *)
Definition alive (st : State) : Prop :=
  control st = LoopHead
  \/ exists pending, control st = ForLoop pending
                     /\ forallb parses pending = true.

(** The content of the choice can be printed: there is none, or it holds
    no lone surrogate. *)
Definition printable (choice : Choice) : bool :=
  match content (message choice) with
  | Some text => stdout_accepts text
  | None => true
  end.

(** The loop leaves at line 75: a finish reason that is set and is not
    [tool_calls]. *)
Definition final_answer (choice : Choice) : bool :=
  truthy (finish_reason choice)
  && differs (finish_reason choice) (lit "tool_calls").

(** The loop leaves at line 78: no tool calls. *)
Definition no_tool_calls (choice : Choice) : bool :=
  match tool_calls (message choice) with
  | None | Some [] => true
  | Some (_ :: _) => false
  end.

End Script.

(* ================================================================== *)
(** ** [test_scripts/tansive_client/exceptions.py] *)
(* ================================================================== *)

Module Exceptions.

(** The classes: the two built-in ones the module builds on and the six it
    declares. *)
Module Cls.

Inductive t : Type :=
| BaseException
| Exception
| TansiveError
| TansiveConnectionError
| TansiveTimeoutError
| TansiveAPIError
| TansiveRetryError
| TansiveValidationError.

Definition eq_dec (a b : t) : {a = b} + {a <> b}.
Proof. decide equality. Defined.

Definition eqb (a b : t) : bool := if eq_dec a b then true else false.

End Cls.

(** The base named in each [class] statement. *)
Definition base (c : Cls.t) : option Cls.t :=
  match c with
  | Cls.BaseException => None
  | Cls.Exception => Some Cls.BaseException
  | Cls.TansiveError => Some Cls.Exception
  | Cls.TansiveConnectionError => Some Cls.TansiveError
  | Cls.TansiveTimeoutError => Some Cls.TansiveError
  | Cls.TansiveAPIError => Some Cls.TansiveError
  | Cls.TansiveRetryError => Some Cls.TansiveError
  | Cls.TansiveValidationError => Some Cls.TansiveError
  end.

(** The class and its bases, nearest first (every class has one base, so
    this is its method resolution order without [object]). *)
Fixpoint lineage (depth : nat) (c : Cls.t) : list Cls.t :=
  c :: match depth, base c with
       | S depth', Some b => lineage depth' b
       | _, _ => []
       end.

Definition mro (c : Cls.t) : list Cls.t := lineage 8 c.

Definition issubclass (c d : Cls.t) : bool := existsb (Cls.eqb d) (mro c).

(** The instances, with the attributes their [__init__] sets.
    [OtherException] is an exception of another module, which [last_error]
    may hold. *)
#[warnings="-register-all"]
Inductive error : Type :=
| OtherException (message : str)
| TansiveError (message : str)
| TansiveConnectionError (message : str)
| TansiveTimeoutError (message : str)
| TansiveAPIError (message : str) (status_code : option Z)
                  (response_body : option str)
| TansiveRetryError (message : str) (last_error : option error)
| TansiveValidationError (message : str).

Definition type_of (e : error) : Cls.t :=
  match e with
  | OtherException _ => Cls.Exception
  | TansiveError _ => Cls.TansiveError
  | TansiveConnectionError _ => Cls.TansiveConnectionError
  | TansiveTimeoutError _ => Cls.TansiveTimeoutError
  | TansiveAPIError _ _ _ => Cls.TansiveAPIError
  | TansiveRetryError _ _ => Cls.TansiveRetryError
  | TansiveValidationError _ => Cls.TansiveValidationError
  end.

(** [except handler:] catches [e] when [isinstance(e, handler)]. *)
Definition catches (handler : Cls.t) (e : error) : bool :=
  issubclass (type_of e) handler.

(** A parameter with a default: the argument when the call supplies it, the
    default otherwise. *)
Definition parameter {A : Type} (supplied : option A) (default : A) : A :=
  match supplied with
  | Some a => a
  | None => default
  end.

(** [TansiveAPIError.__init__(self, message, status_code=None,
    response_body=None)] *)
Definition TansiveAPIError__init__ (message : str)
    (status_code : option (option Z)) (response_body : option (option str))
  : error :=
  TansiveAPIError message (parameter status_code None)
                  (parameter response_body None).

(** [TansiveRetryError.__init__(self, message, last_error=None)] *)
Definition TansiveRetryError__init__ (message : str)
    (last_error : option (option error)) : error :=
  TansiveRetryError message (parameter last_error None).

(** Attribute reads; the outer [None] is an object without the
    attribute. *)
Definition status_code (e : error) : option (option Z) :=
  match e with
  | TansiveAPIError _ c _ => Some c
  | _ => None
  end.

Definition response_body (e : error) : option (option str) :=
  match e with
  | TansiveAPIError _ _ b => Some b
  | _ => None
  end.

Definition last_error (e : error) : option (option error) :=
  match e with
  | TansiveRetryError _ l => Some l
  | _ => None
  end.

(** The classes [__init__.py] exports. *)
Definition sdk_errors : list Cls.t :=
  [ Cls.TansiveError; Cls.TansiveConnectionError; Cls.TansiveTimeoutError;
    Cls.TansiveAPIError; Cls.TansiveRetryError; Cls.TansiveValidationError ].

End Exceptions.

(* ================================================================== *)
(** ** The skill invoker *)
(* ================================================================== *)

Module Invoker.

Import Script Exceptions.

(** The kinds of failure a configuration may declare eligible for another
    attempt. *)
Inductive RetryableKind : Type :=
| Connection
| Timeout
| APIStatus5xx.

Definition kind_eqb (a b : RetryableKind) : bool :=
  match a, b with
  | Connection, Connection | Timeout, Timeout
  | APIStatus5xx, APIStatus5xx => true
  | _, _ => false
  end.

(** Modelled from the spec: [tansive_client/client.py] ([TansiveClient],
    [SkillInvocation], [SkillResult]) is imported by [__init__.py] and is
    not among the sources.  [RetryConfig] has the fields section 4.2 names;
    delays and the deadline are whole numbers of a time unit, and
    [maxAttempts] counts the first attempt. *)
Record RetryConfig := {
  maxAttempts : nat;
  baseDelay : N;
  backoffMultiplier : N;
  perAttemptTimeout : N;
  retryableKinds : list RetryableKind
}.

Record SkillResult := { tool_call_id : str; output : str }.

(** Modelled from the spec: the execution surface that [client.py] would
    call is absent.  The three raw failures section 4.2 classifies, and what
    one attempt yields: a payload or a failure. *)
Inductive Failure : Type :=
| Unreachable (message : str)
| DeadlineExceeded (message : str)
| ErrorStatus (message : str) (status_code : Z) (response_body : str).

Inductive Attempt : Type :=
| Payload (output : str)
| Failed (f : Failure).

(** The surface answers the attempt with the given index (from 1) under the
    given deadline. *)
Definition Surface := nat -> N -> Attempt.

(** What the invoker does besides returning, in order: an attempt of the
    invocation begins (the first opens with validation, each later one
    follows a sleep), the surface is called, the invoker sleeps. *)
Inductive Effect : Type :=
| Began (index : nat)
| Attempted (index : nat)
| Slept (delay : N).

(** The value a decoded object gives to a name: the last one when the name
    is repeated, as in the [dict] that [json.loads] builds. *)
Definition member (name : str) (members : list (str * json)) : option json :=
  match find (fun kv => str_eqb (fst kv) name) (rev members) with
  | Some kv => Some (snd kv)
  | None => None
  end.

(** An integer lexeme: digits after an optional sign, no fraction and no
    exponent. *)
Definition is_integer_lexeme (lexeme : str) : bool :=
  forallb (fun c => is_digit c || N.eqb c 45) lexeme.

(** Modelled from the spec: the types of the JSON-Schema-like parameter
    spec of section 6 (absent [client.py]).  A value has the declared type
    when the type names its kind; a name that is no type has no values. *)
Definition has_type (declared : str) (v : json) : bool :=
  match v with
  | JString _ => str_eqb declared (lit "string")
  | JNumber lexeme =>
      str_eqb declared (lit "number")
      || (str_eqb declared (lit "integer") && is_integer_lexeme lexeme)
  | JConstant _ => str_eqb declared (lit "number")
  | JBool _ => str_eqb declared (lit "boolean")
  | JNull => str_eqb declared (lit "null")
  | JArray _ => str_eqb declared (lit "array")
  | JObject _ => str_eqb declared (lit "object")
  end.

(** Modelled from the spec: whether a decoded payload matches a parameter
    spec (absent [client.py]).  It is an object of the declared type, it has
    every required field, and every declared property it gives a value to
    has a value of the declared type. *)
Definition conforms (spec : Parameters) (v : json) : bool :=
  match v with
  | JObject members =>
      has_type (params_type spec) v
      && forallb (fun field => match member field members with
                               | Some _ => true
                               | None => false
                               end) (required spec)
      && forallb (fun p => match member (fst p) members with
                           | Some value => has_type (prop_type (snd p)) value
                           | None => true
                           end) (properties spec)
  | _ => false
  end.

(** The tool a call names, when the catalog declares it. *)
Definition declared_tool (catalog : list Tool) (call : ToolCall)
  : option Tool :=
  find (fun t => str_eqb (spec_name (tool_function t))
                         (fn_name (tc_function call))) catalog.

(** Modelled from the spec: the validation step of the absent [client.py].
    The payload must parse and match the parameter spec of the tool the
    call names; a call to an undeclared tool has no schema to match. *)
Definition validate (catalog : list Tool) (call : ToolCall) : bool :=
  match declared_tool catalog call with
  | None => false
  | Some tool =>
      match json_loads (fn_arguments (tc_function call)) with
      | Some v => conforms (parameters (tool_function tool)) v
      | None => false
      end
  end.

(** Modelled from the spec: classification of a raw failure (absent
    [client.py]). *)
Definition classify (f : Failure) : error :=
  match f with
  | Unreachable m => TansiveConnectionError m
  | DeadlineExceeded m => TansiveTimeoutError m
  | ErrorStatus m c b =>
      TansiveAPIError__init__ m (Some (Some c)) (Some (Some b))
  end.

(** Modelled from the spec: the retry policy (absent [client.py]).  Only a
    failure whose kind is in [retryableKinds] triggers another attempt, and
    of the status failures only those from 500 to 599 have such a kind. *)
Definition retryable (cfg : RetryConfig) (f : Failure) : bool :=
  match f with
  | Unreachable _ => existsb (kind_eqb Connection) (retryableKinds cfg)
  | DeadlineExceeded _ => existsb (kind_eqb Timeout) (retryableKinds cfg)
  | ErrorStatus _ c _ =>
      (Z.leb 500 c && Z.leb c 599)
      && existsb (kind_eqb APIStatus5xx) (retryableKinds cfg)
  end.

(** Modelled from the spec: the delay before the attempt that follows
    attempt [attempt] (absent [client.py]):
    [baseDelay * backoffMultiplier^(attempt-1)]. *)
Definition backoff (cfg : RetryConfig) (attempt : nat) : N :=
  (baseDelay cfg * N.pow (backoffMultiplier cfg) (N.of_nat (attempt - 1)))%N.

Definition exhausted_message : str := lit "all retries have been exhausted".
Definition validation_message : str := lit "invalid arguments".

(** Modelled from the spec: the attempts of one invocation (absent
    [client.py]).  [remaining] is the number of attempts still allowed after
    this one.  A success returns the result; a failure that is not
    retryable is raised as classified; a retryable one is followed by a
    sleep and the next attempt, or, when none remains, by [Retry] wrapping
    the failure of this last attempt. *)
Fixpoint attempts (cfg : RetryConfig) (surface : Surface) (call : ToolCall)
    (remaining attempt : nat) : (SkillResult + error) * list Effect :=
  match surface attempt (perAttemptTimeout cfg) with
  | Payload out =>
      (inl {| tool_call_id := tc_id call; output := out |},
       [Attempted attempt])
  | Failed f =>
      if retryable cfg f then
        match remaining with
        | O =>
            (inr (TansiveRetryError__init__ exhausted_message
                    (Some (Some (classify f)))),
             [Attempted attempt])
        | S remaining' =>
            let (r, effects) :=
              attempts cfg surface call remaining' (S attempt) in
            (r, Attempted attempt :: Slept (backoff cfg attempt)
                :: Began (S attempt) :: effects)
        end
      else (inr (classify f), [Attempted attempt])
  end.

(** Modelled from the spec: [invoke] of the absent [client.py].  The
    first attempt of the invocation opens with validation, before the
    surface is called, and a validation failure is raised at once; otherwise
    the surface is called, at most [maxAttempts] times in all. *)
Definition invoke (catalog : list Tool) (surface : Surface)
    (call : ToolCall) (cfg : RetryConfig)
  : (SkillResult + error) * list Effect :=
  if validate catalog call
  then let (r, effects) :=
         attempts cfg surface call (maxAttempts cfg - 1) 1 in
       (r, Began 1 :: effects)
  else (inr (TansiveValidationError validation_message), [Began 1]).

(** Attempts made against the surface, and attempts that were retries. *)
Definition network_attempts (effects : list Effect) : nat :=
  length (filter (fun e => match e with Attempted _ => true | _ => false end)
                 effects).

Definition retries (effects : list Effect) : nat :=
  length (filter (fun e => match e with Slept _ => true | _ => false end)
                 effects).


End Invoker.

(* ================================================================== *)
(** ** Endpoints and surfaces to run the definitions on *)
(* ================================================================== *)

Module Stubs.

Import Script Exceptions Invoker.

(** [get_weather] with the arguments [{"location": "San Francisco, CA"}]. *)
Definition weather_call : ToolCall :=
  {| tc_id := lit "call_1";
     tc_function :=
       {| fn_name := lit "get_weather";
          fn_arguments :=
            lit "{" ++ quoted "location" ++ lit ": "
            ++ quoted "San Francisco, CA" ++ lit "}" |} |}.

(** Another tool and other arguments: [{"city": "Paris", "days": 3}]. *)
Definition forecast_call : ToolCall :=
  {| tc_id := lit "call_2";
     tc_function :=
       {| fn_name := lit "get_forecast";
          fn_arguments :=
            lit "{" ++ quoted "city" ++ lit ": " ++ quoted "Paris"
            ++ lit ", " ++ quoted "days" ++ lit ": 3}" |} |}.

(** [get_weather] with arguments cut short: [{"location": ]. *)
Definition broken_call : ToolCall :=
  {| tc_id := lit "call_3";
     tc_function :=
       {| fn_name := lit "get_weather";
          fn_arguments := lit "{" ++ quoted "location" ++ lit ": " |} |}.

(** A completion with one choice. *)
Definition completion (text : option str) (calls : option (list ToolCall))
    (reason : option str) : ChatCompletion :=
  {| choices := [ {| message := {| content := text; tool_calls := calls |};
                     finish_reason := reason |} ] |}.

(** The endpoint that gives the same completion to every request. *)
Definition always (response : ChatCompletion) : Client :=
  fun _ => Some response.

(** The endpoint that answers by turn: the k-th completion of the list when
    the request holds k assistant messages, and fails after the last. *)
Definition scripted (responses : list ChatCompletion) : Client :=
  fun request =>
    nth_error responses
              (length (filter is_assistant (req_messages request))).

(** One turn of tool calls answered, then a final answer. *)
Definition asks_weather : ChatCompletion :=
  completion None (Some [weather_call]) (Some (lit "tool_calls")).

Definition asks_two : ChatCompletion :=
  completion None (Some [weather_call; forecast_call])
             (Some (lit "tool_calls")).

Definition asks_broken : ChatCompletion :=
  completion None (Some [weather_call; broken_call; forecast_call])
             (Some (lit "tool_calls")).

(** Tool calls next to a finish reason that ends the loop. *)
Definition stops_with_calls : ChatCompletion :=
  completion None (Some [weather_call]) (Some (lit "stop")).

(** Tool calls and no finish reason. *)
Definition asks_without_reason : ChatCompletion :=
  completion None (Some [weather_call]) None.

Definition sunny : str := lit "It's 72 degrees and sunny in San Francisco.".

Definition answers_sunny : ChatCompletion :=
  completion (Some sunny) None (Some (lit "stop")).

(** [get_weather] with an object that lacks the required field:
    [{"city": "Paris"}]. *)
Definition misnamed_call : ToolCall :=
  {| tc_id := lit "call_4";
     tc_function :=
       {| fn_name := lit "get_weather";
          fn_arguments :=
            lit "{" ++ quoted "city" ++ lit ": " ++ quoted "Paris"
            ++ lit "}" |} |}.

(** The surface on which every attempt exceeds its deadline; the message
    tells the attempts apart. *)
Definition always_times_out : Surface :=
  fun attempt _ =>
    Failed (DeadlineExceeded (lit "deadline exceeded, attempt "
                              ++ [N.of_nat (48 + attempt)])).

(** The surface that answers with status 404. *)
Definition not_found : Surface :=
  fun _ _ => Failed (ErrorStatus (lit "Not Found") 404 (lit "no such skill")).

(** The surface whose first attempt exceeds its deadline and whose later
    attempts answer with status 404. *)
Definition times_out_then_not_found : Surface :=
  fun attempt deadline =>
    if Nat.leb attempt 1 then always_times_out attempt deadline
    else not_found attempt deadline.

(** [get_weather] with a number where the string is declared:
    [{"location": 42}]. *)
Definition mistyped_call : ToolCall :=
  {| tc_id := lit "call_5";
     tc_function :=
       {| fn_name := lit "get_weather";
          fn_arguments := lit "{" ++ quoted "location" ++ lit ": 42}" |} |}.


Definition three_timeouts : RetryConfig :=
  {| maxAttempts := 3; baseDelay := 100; backoffMultiplier := 2;
     perAttemptTimeout := 5000; retryableKinds := [Timeout] |}.

Definition retry_everything : RetryConfig :=
  {| maxAttempts := 5; baseDelay := 100; backoffMultiplier := 2;
     perAttemptTimeout := 5000;
     retryableKinds := [Connection; Timeout; APIStatus5xx] |}.

End Stubs.

(* ================================================================== *)
(** ** The shape of a run *)
(* ================================================================== *)

Module Conversation.

Import Script.

(** What one turn of tool calls leaves in [messages]: the dump of line 81
    and the dictionaries of line 98, one per call. *)
Definition turn (m : ChatCompletionMessage) : list Message :=
  AssistantDump m :: map tool_result (requested m).

(** The assistant messages of a message list. *)
Definition assistants (ms : list Message) : nat :=
  length (filter is_assistant ms).

(** Every completion request was built from the messages that had been
    appended when it was sent (effects from the latest to the first). *)
Fixpoint requests_faithful (latest_first : list Event) : Prop :=
  match latest_first with
  | [] => True
  | EvCreate r :: older =>
      r = request_for (messages initial ++ appended (rev older))
      /\ requests_faithful older
  | _ :: older => requests_faithful older
  end.

(** The message list by control point: the seeds and whole turns at the
    head of the loop and after [break]; in the [for] loop one more turn, of
    which the calls not yet run are the pending ones; after an exit whole
    turns and possibly the begun one. *)
Definition shaped (st : State) : Prop :=
  exists turns,
    Forall (fun m => requested m <> []) turns
    /\ match control st with
       | LoopHead | Returned =>
           messages st = messages initial ++ flat_map turn turns
       | ForLoop pending =>
           exists m done,
             requested m = done ++ pending /\ requested m <> []
             /\ messages st
                = messages initial ++ flat_map turn turns
                  ++ AssistantDump m :: map tool_result done
       | SysExit _ | Uncaught _ =>
           exists tail,
             messages st = messages initial ++ flat_map turn turns ++ tail
             /\ (tail = []
                 \/ exists m done rest,
                      requested m = done ++ rest
                      /\ tail = AssistantDump m :: map tool_result done)
       end.

(** Requests sent against assistant messages held, by control point. *)
Definition counted (st : State) : Prop :=
  match control st with
  | LoopHead | ForLoop _ => requests_sent st = assistants (messages st)
  | Returned | Uncaught _ => requests_sent st = S (assistants (messages st))
  | SysExit _ =>
      assistants (messages st) <= requests_sent st
      /\ requests_sent st <= S (assistants (messages st))
  end.

(** How a run that did not end by [break] ended: with status 1 right
    after one of the two lines on the error stream, when the endpoint call
    raised or the arguments of a tool call did not parse; or, right after a
    request was answered, with the exception of line 66 when the answer has
    no choice, or the exception of line 71 when its content cannot be
    printed. *)
Definition stopped_as_written (openai_client : Client) (st : State) : Prop :=
  match control st with
  | SysExit status =>
      status = 1%Z
      /\ ((exists ms older,
             events st
             = EvPrint OpenAICallFailed :: EvCreate (request_for ms) :: older
             /\ openai_client (request_for ms) = None)
          \/ (exists c older,
                events st = EvPrint ToolCallFailed :: EvLoads c :: older
                /\ parses c = false))
  | Uncaught e =>
      exists ms older response,
        events st = EvCreate (request_for ms) :: older
        /\ openai_client (request_for ms) = Some response
        /\ ((e = lit "IndexError" /\ choices response = [])
            \/ (e = lit "UnicodeEncodeError"
                /\ exists choice others,
                     choices response = choice :: others
                     /\ printable choice = false))
  | LoopHead | ForLoop _ | Returned => True
  end.

(** The response to a request does not start a turn of tool calls: the call
    raises, or there is no choice, or the first choice ends the loop. *)
Definition ends_loop (answer : option ChatCompletion) : bool :=
  match answer with
  | None => true
  | Some response =>
      match choices response with
      | [] => true
      | choice :: _ => final_answer choice || no_tool_calls choice
      end
  end.

(** Since the latest completion request a message has been appended, or no
    request has been sent yet (effects from the latest to the first). *)
Fixpoint appended_since_request (latest_first : list Event) : bool :=
  match latest_first with
  | [] => true
  | EvAppend _ :: _ => true
  | EvCreate _ :: _ => false
  | _ :: older => appended_since_request older
  end.

(** Every completion request but the first was sent after an append that
    followed the request before it. *)
Fixpoint requests_spaced (latest_first : list Event) : Prop :=
  match latest_first with
  | [] => True
  | EvCreate _ :: older =>
      appended_since_request older = true /\ requests_spaced older
  | _ :: older => requests_spaced older
  end.

(** The endpoint whose call always raises. *)
Definition unreachable : Client := fun _ => None.

(** A completion without choices. *)
Definition no_choice : ChatCompletion := {| choices := [] |}.

(** The five classes of [exceptions.py] below the base. *)
Definition leaf_errors : list Exceptions.Cls.t :=
  [ Exceptions.Cls.TansiveConnectionError; Exceptions.Cls.TansiveTimeoutError;
    Exceptions.Cls.TansiveAPIError; Exceptions.Cls.TansiveRetryError;
    Exceptions.Cls.TansiveValidationError ].

End Conversation.

(* ================================================================== *)
(** ** Properties *)
(* ================================================================== *)

Import Script Exceptions Invoker Stubs Conversation.

Unset Implicit Arguments.

Arguments json_loads : simpl never.
Arguments json_dumps : simpl never.

(** *** Strings *)

Lemma str_eqb_refl (a : str) : str_eqb a a = true.
Proof.
  induction a as [|x a IH]; simpl; [reflexivity|].
  now rewrite N.eqb_refl, IH.
Qed.

Lemma str_eqb_eq (a b : str) : str_eqb a b = true <-> a = b.
Proof.
  split.
  - revert b. induction a as [|x a IH]; intros [|y b]; simpl; try discriminate.
    + reflexivity.
    + intros H. apply andb_true_iff in H as [Hx Hr].
      apply N.eqb_eq in Hx. now rewrite Hx, (IH b Hr).
  - intros ->. apply str_eqb_refl.
Qed.

(** *** The fuel of the decoder *)

Lemma skip_ws_length (s : str) : length (skip_ws s) <= length s.
Proof.
  induction s as [|c r IH]; simpl; [lia|].
  destruct (is_ws c); simpl; lia.
Qed.

Lemma strip_prefix_length (p s r : str) :
  strip_prefix p s = Some r -> length s = length p + length r.
Proof.
  revert s. induction p as [|x p IH]; intros s; simpl.
  - intros H. now inversion H.
  - destruct s as [|y s]; [discriminate|].
    destruct (N.eqb x y); [|discriminate].
    intros H. simpl. now rewrite (IH _ H).
Qed.

Lemma decode_uXXXX_length (s r : str) (u : N) :
  decode_uXXXX s = Some (u, r) -> length s = 4 + length r.
Proof.
  unfold decode_uXXXX. destruct s as [|a [|b [|c [|d t]]]]; try discriminate.
  destruct (hex_value a), (hex_value b), (hex_value c), (hex_value d);
    try discriminate.
  intros H. inversion H; subst. reflexivity.
Qed.

(** A round of [scanstring] calls the loop on strictly shorter input only. *)
Lemma scanstring_round_ext (f g : str -> str -> option (str * str))
    (s acc : str) :
  (forall s' acc', length s' < length s -> f s' acc' = g s' acc') ->
  scanstring_round f s acc = scanstring_round g s acc.
Proof.
  intros H. unfold scanstring_round.
  destruct s as [|c r]; [reflexivity|].
  destruct (N.eqb c dquote); [reflexivity|].
  destruct (N.eqb c backslash).
  - destruct r as [|e r1]; [reflexivity|].
    destruct (N.eqb e 117).
    + destruct (decode_uXXXX r1) as [[uni r2]|] eqn:D1; [|reflexivity].
      apply decode_uXXXX_length in D1.
      assert (H2 : forall a, f r2 a = g r2 a)
        by (intros a; apply H; simpl; lia).
      destruct (N.leb 55296 uni && N.leb uni 56319); [|apply H2].
      destruct (strip_prefix [backslash; 117%N] r2) as [r3|] eqn:P; [|apply H2].
      apply strip_prefix_length in P.
      destruct (decode_uXXXX r3) as [[uni2 r4]|] eqn:D2; [|reflexivity].
      apply decode_uXXXX_length in D2.
      destruct (N.leb 56320 uni2 && N.leb uni2 57343); [|apply H2].
      apply H. simpl in *. lia.
    + destruct (backslash_escape e); [|reflexivity]. apply H. simpl. lia.
  - destruct (N.ltb c 32); [reflexivity|]. apply H. simpl. lia.
Qed.

Lemma scanstring_fuel_S (fuel : nat) (s acc : str) :
  length s <= fuel -> scanstring (S fuel) s acc = scanstring fuel s acc.
Proof.
  revert s acc. induction fuel as [|fuel IH]; intros s acc Hlen.
  - destruct s; [reflexivity | simpl in Hlen; lia].
  - change (scanstring_round (scanstring (S fuel)) s acc
            = scanstring_round (scanstring fuel) s acc).
    apply scanstring_round_ext. intros s' acc' Hs. apply IH. lia.
Qed.

(** The result of [scanstring] does not depend on the fuel once it covers
    the length of the input. *)
Lemma scanstring_fuel (fuel : nat) (s acc : str) :
  length s <= fuel -> scanstring fuel s acc = scanstring (length s) s acc.
Proof.
  intros H. replace fuel with ((fuel - length s) + length s) by lia.
  induction (fuel - length s) as [|k IH]; [reflexivity|].
  cbn [plus]. rewrite scanstring_fuel_S by lia. exact IH.
Qed.

Lemma scanstring_round_shorter (f : str -> str -> option (str * str))
    (acc : str) :
  (forall acc', shorter (fun s => f s acc')) ->
  shorter (fun s => scanstring_round f s acc).
Proof.
  intros Hf s v r. unfold scanstring_round.
  destruct s as [|c t]; [discriminate|].
  destruct (N.eqb c dquote).
  { intros H. inversion H; subst. simpl. lia. }
  assert (Hcall : forall s' acc', length s' <= length t ->
                    f s' acc' = Some (v, r) -> length r < length (c :: t)).
  { intros s' acc' Hs H. apply Hf in H. simpl. lia. }
  destruct (N.eqb c backslash).
  - destruct t as [|e r1]; [discriminate|].
    destruct (N.eqb e 117).
    + destruct (decode_uXXXX r1) as [[uni r2]|] eqn:D1; [|discriminate].
      apply decode_uXXXX_length in D1.
      assert (H2 : forall a, f r2 a = Some (v, r) ->
                             length r < length (c :: e :: r1))
        by (intros a; apply Hcall; simpl; lia).
      destruct (N.leb 55296 uni && N.leb uni 56319); [|apply H2].
      destruct (strip_prefix [backslash; 117%N] r2) as [r3|] eqn:P; [|apply H2].
      apply strip_prefix_length in P.
      destruct (decode_uXXXX r3) as [[uni2 r4]|] eqn:D2; [|discriminate].
      apply decode_uXXXX_length in D2.
      destruct (N.leb 56320 uni2 && N.leb uni2 57343); [|apply H2].
      apply Hcall. simpl in *. lia.
    + destruct (backslash_escape e); [|discriminate]. apply Hcall. simpl. lia.
  - destruct (N.ltb c 32); [discriminate|]. apply Hcall. lia.
Qed.

Lemma scanstring_shorter (fuel : nat) (acc : str) :
  shorter (fun s => scanstring fuel s acc).
Proof.
  revert acc. induction fuel as [|fuel IH]; intros acc.
  - intros s v r H. discriminate.
  - apply scanstring_round_shorter. exact IH.
Qed.

Lemma py_scanstring_shorter : shorter py_scanstring.
Proof.
  intros s v r H. unfold py_scanstring in H.
  now apply (scanstring_shorter (length s) [] s v r).
Qed.

Lemma span_digits_length (s : str) :
  length (snd (span_digits s)) <= length s.
Proof.
  induction s as [|c r IH]; simpl; [lia|].
  destruct (is_digit c); [|simpl; lia].
  destruct (span_digits r) as [ds r']. simpl in *. lia.
Qed.

Lemma match_sign_length (s : str) : length (snd (match_sign s)) <= length s.
Proof.
  unfold match_sign. destruct (strip_prefix [45%N] s) as [r|] eqn:P; simpl;
    [|lia].
  apply strip_prefix_length in P. lia.
Qed.

Lemma match_integer_shorter : shorter match_integer.
Proof.
  intros s v r. unfold match_integer. destruct s as [|c t]; [discriminate|].
  destruct (N.eqb c 48).
  { intros H. inversion H; subst. simpl. lia. }
  destruct (is_digit c); [|discriminate].
  pose proof (span_digits_length t) as Hl.
  destruct (span_digits t) as [ds r']. intros H. inversion H; subst.
  simpl in *. lia.
Qed.

Lemma match_fraction_length (s : str) :
  length (snd (match_fraction s)) <= length s.
Proof.
  unfold match_fraction. destruct (strip_prefix [46%N] s) as [r|] eqn:P;
    [|simpl; lia].
  apply strip_prefix_length in P. pose proof (span_digits_length r) as Hl.
  destruct (span_digits r) as [[|d ds] r']; simpl in *; lia.
Qed.

Lemma match_exponent_length (s : str) :
  length (snd (match_exponent s)) <= length s.
Proof.
  unfold match_exponent. destruct s as [|e r]; [simpl; lia|].
  destruct (N.eqb e 101 || N.eqb e 69); [|simpl; lia].
  assert (Hsg : length (snd (match_exponent_sign r)) <= length r).
  { unfold match_exponent_sign. destruct r as [|x r']; [simpl; lia|].
    destruct (N.eqb x 45 || N.eqb x 43); simpl; lia. }
  destruct (match_exponent_sign r) as [sg r1].
  pose proof (span_digits_length r1) as Hl.
  destruct (span_digits r1) as [[|d ds] r']; simpl in *; lia.
Qed.

Lemma match_number_shorter : shorter match_number.
Proof.
  intros s v r. unfold match_number.
  pose proof (match_sign_length s) as H1.
  destruct (match_sign s) as [sign s1].
  destruct (match_integer s1) as [[int_part s2]|] eqn:Hi; [|discriminate].
  apply match_integer_shorter in Hi.
  pose proof (match_fraction_length s2) as H3.
  destruct (match_fraction s2) as [frac s3].
  pose proof (match_exponent_length s3) as H4.
  destruct (match_exponent s3) as [expo s4].
  intros H. inversion H; subst. simpl in *. lia.
Qed.

Lemma match_literal_shorter : shorter match_literal.
Proof.
  intros s v r. unfold match_literal.
  repeat match goal with
  | |- context [strip_prefix ?p s] =>
      let P := fresh "P" in
      destruct (strip_prefix p s) eqn:P;
      [apply strip_prefix_length in P; cbn [lit length map N_of_ascii
         list_ascii_of_string] in P;
       intros H; inversion H; subst; simpl in P; lia|]
  | |- context [match_number s] =>
      let P := fresh "P" in
      destruct (match_number s) as [[lexeme t]|] eqn:P;
      [apply match_number_shorter in P;
       intros H; inversion H; subst; exact P|]
  end.
  discriminate.
Qed.

Lemma scan_value_shorter
    (members : str -> list (str * json) -> option (json * str))
    (items : str -> list json -> option (json * str)) :
  (forall acc, shorter (fun s => members s acc)) ->
  (forall acc, shorter (fun s => items s acc)) ->
  shorter (scan_value members items).
Proof.
  intros Hm Hi s v r. unfold scan_value. destruct s as [|c t]; [discriminate|].
  pose proof (skip_ws_length t) as Hw.
  destruct (N.eqb c dquote).
  { destruct (py_scanstring t) as [[x r']|] eqn:P; [|discriminate].
    apply py_scanstring_shorter in P. intros H. inversion H; subst.
    simpl. lia. }
  destruct (N.eqb c 123).
  { destruct (strip_prefix [125%N] (skip_ws t)) as [r'|] eqn:P.
    - apply strip_prefix_length in P. intros H. inversion H; subst.
      simpl in *. lia.
    - intros H. apply Hm in H. simpl. lia. }
  destruct (N.eqb c 91).
  { destruct (strip_prefix [93%N] (skip_ws t)) as [r'|] eqn:P.
    - apply strip_prefix_length in P. intros H. inversion H; subst.
      simpl in *. lia.
    - intros H. apply Hi in H. simpl. lia. }
  apply match_literal_shorter.
Qed.

Lemma object_round_shorter (scan : str -> option (json * str))
    (continue : str -> list (str * json) -> option (json * str))
    (acc : list (str * json)) :
  shorter scan -> (forall acc', shorter (fun s => continue s acc')) ->
  shorter (fun s => object_round scan continue s acc).
Proof.
  intros Hs Hc s v r. unfold object_round.
  destruct (strip_prefix [dquote] s) as [t|] eqn:P0; [|discriminate].
  apply strip_prefix_length in P0.
  destruct (py_scanstring t) as [[key r1]|] eqn:P1; [|discriminate].
  apply py_scanstring_shorter in P1. pose proof (skip_ws_length r1) as W1.
  destruct (strip_prefix [58%N] (skip_ws r1)) as [r2|] eqn:P2; [|discriminate].
  apply strip_prefix_length in P2. pose proof (skip_ws_length r2) as W2.
  destruct (scan (skip_ws r2)) as [[x r3]|] eqn:P3; [|discriminate].
  apply Hs in P3. pose proof (skip_ws_length r3) as W3.
  destruct (strip_prefix [125%N] (skip_ws r3)) as [r4|] eqn:P4.
  { apply strip_prefix_length in P4. intros H. inversion H; subst.
    simpl in *. lia. }
  destruct (strip_prefix [44%N] (skip_ws r3)) as [r4|] eqn:P5; [|discriminate].
  apply strip_prefix_length in P5. pose proof (skip_ws_length r4) as W4.
  intros H. apply Hc in H. simpl in *. lia.
Qed.

Lemma array_round_shorter (scan : str -> option (json * str))
    (continue : str -> list json -> option (json * str)) (acc : list json) :
  shorter scan -> (forall acc', shorter (fun s => continue s acc')) ->
  shorter (fun s => array_round scan continue s acc).
Proof.
  intros Hs Hc s v r. unfold array_round.
  destruct (scan s) as [[x r1]|] eqn:P1; [|discriminate].
  apply Hs in P1. pose proof (skip_ws_length r1) as W1.
  destruct (strip_prefix [93%N] (skip_ws r1)) as [r2|] eqn:P2.
  { apply strip_prefix_length in P2. intros H. inversion H; subst.
    simpl in *. lia. }
  destruct (strip_prefix [44%N] (skip_ws r1)) as [r2|] eqn:P3; [|discriminate].
  apply strip_prefix_length in P3. pose proof (skip_ws_length r2) as W2.
  intros H. apply Hc in H. simpl in *. lia.
Qed.

Lemma scanners_shorter (fuel : nat) :
  shorter (scan_once fuel)
  /\ (forall acc, shorter (fun s => parse_members fuel s acc))
  /\ (forall acc, shorter (fun s => parse_items fuel s acc)).
Proof.
  induction fuel as [|fuel (Hs & Hm & Hi)].
  - repeat split; intros; intros s v r H; discriminate.
  - split; [|split].
    + now apply scan_value_shorter.
    + intros acc. now apply object_round_shorter.
    + intros acc. now apply array_round_shorter.
Qed.

(** The three bodies call their arguments on shorter input only, the value
    scanner of an array round also on the input itself. *)
Lemma scan_value_ext
    (m m' : str -> list (str * json) -> option (json * str))
    (i i' : str -> list json -> option (json * str)) (s : str) :
  (forall s' acc, length s' < length s -> m s' acc = m' s' acc) ->
  (forall s' acc, length s' < length s -> i s' acc = i' s' acc) ->
  scan_value m i s = scan_value m' i' s.
Proof.
  intros Hm Hi. unfold scan_value. destruct s as [|c t]; [reflexivity|].
  pose proof (skip_ws_length t) as Hw.
  destruct (N.eqb c dquote); [reflexivity|].
  destruct (N.eqb c 123).
  { destruct (strip_prefix [125%N] (skip_ws t)); [reflexivity|].
    apply Hm. simpl. lia. }
  destruct (N.eqb c 91); [|reflexivity].
  destruct (strip_prefix [93%N] (skip_ws t)); [reflexivity|].
  apply Hi. simpl. lia.
Qed.

Lemma object_round_ext (v v' : str -> option (json * str))
    (c c' : str -> list (str * json) -> option (json * str))
    (s : str) (acc : list (str * json)) :
  shorter v ->
  (forall s', length s' < length s -> v s' = v' s') ->
  (forall s' acc', length s' < length s -> c s' acc' = c' s' acc') ->
  object_round v c s acc = object_round v' c' s acc.
Proof.
  intros Hs Hv Hc. unfold object_round.
  destruct (strip_prefix [dquote] s) as [t|] eqn:P0; [|reflexivity].
  apply strip_prefix_length in P0.
  destruct (py_scanstring t) as [[key r1]|] eqn:P1; [|reflexivity].
  apply py_scanstring_shorter in P1. pose proof (skip_ws_length r1) as W1.
  destruct (strip_prefix [58%N] (skip_ws r1)) as [r2|] eqn:P2; [|reflexivity].
  apply strip_prefix_length in P2. pose proof (skip_ws_length r2) as W2.
  rewrite <- Hv by (simpl in *; lia).
  destruct (v (skip_ws r2)) as [[x r3]|] eqn:P3; [|reflexivity].
  apply Hs in P3. pose proof (skip_ws_length r3) as W3.
  destruct (strip_prefix [125%N] (skip_ws r3)); [reflexivity|].
  destruct (strip_prefix [44%N] (skip_ws r3)) as [r4|] eqn:P5; [|reflexivity].
  apply strip_prefix_length in P5. pose proof (skip_ws_length r4) as W4.
  apply Hc. simpl in *. lia.
Qed.

Lemma array_round_ext (v v' : str -> option (json * str))
    (c c' : str -> list json -> option (json * str))
    (s : str) (acc : list json) :
  shorter v -> v s = v' s ->
  (forall s' acc', length s' < length s -> c s' acc' = c' s' acc') ->
  array_round v c s acc = array_round v' c' s acc.
Proof.
  intros Hs Hv Hc. unfold array_round. rewrite <- Hv.
  destruct (v s) as [[x r1]|] eqn:P1; [|reflexivity].
  apply Hs in P1. pose proof (skip_ws_length r1) as W1.
  destruct (strip_prefix [93%N] (skip_ws r1)); [reflexivity|].
  destruct (strip_prefix [44%N] (skip_ws r1)) as [r2|] eqn:P3; [|reflexivity].
  apply strip_prefix_length in P3. pose proof (skip_ws_length r2) as W2.
  apply Hc. simpl in *. lia.
Qed.

(** One more unit of fuel changes nothing once the fuel is twice the length
    of the input (and one more for the two loops). *)
Lemma scanners_fuel_S (fuel : nat) :
  (forall s, 2 * length s <= fuel -> scan_once (S fuel) s = scan_once fuel s)
  /\ (forall s acc, 2 * length s + 1 <= fuel ->
        parse_members (S fuel) s acc = parse_members fuel s acc)
  /\ (forall s acc, 2 * length s + 1 <= fuel ->
        parse_items (S fuel) s acc = parse_items fuel s acc).
Proof.
  induction fuel as [|fuel (Hs & Hm & Hi)].
  - split; [|split]; intros s; intros; try lia.
    destruct s; [reflexivity | simpl in *; lia].
  - destruct (scanners_shorter (S fuel)) as (Sh & _ & _).
    split; [|split].
    + intros s Hlen.
      change (scan_value (parse_members (S fuel)) (parse_items (S fuel)) s
              = scan_value (parse_members fuel) (parse_items fuel) s).
      apply scan_value_ext; intros s' acc Hs'; [apply Hm | apply Hi]; lia.
    + intros s acc Hlen.
      change (object_round (scan_once (S fuel)) (parse_members (S fuel)) s acc
              = object_round (scan_once fuel) (parse_members fuel) s acc).
      apply object_round_ext; [exact Sh| |]; intros; [apply Hs | apply Hm]; lia.
    + intros s acc Hlen.
      change (array_round (scan_once (S fuel)) (parse_items (S fuel)) s acc
              = array_round (scan_once fuel) (parse_items fuel) s acc).
      apply array_round_ext; [exact Sh | apply Hs; lia|].
      intros. apply Hi. lia.
Qed.

Lemma scan_once_fuel (fuel : nat) (s : str) :
  2 * length s <= fuel -> scan_once fuel s = scan_once (2 * length s) s.
Proof.
  intros H. replace fuel with ((fuel - 2 * length s) + 2 * length s) by lia.
  induction (fuel - 2 * length s) as [|k IH]; [reflexivity|].
  cbn [plus]. destruct (scanners_fuel_S (k + 2 * length s)) as (Hs & _).
  rewrite Hs by lia. exact IH.
Qed.

(** The fuel [json_loads] gives the decoder is enough: more fuel gives the
    same result, so a [None] is a refusal of the input and never a lack of
    fuel. *)
Lemma json_loads_fuel (fuel : nat) (s : str) :
  2 * length s + 2 <= fuel ->
  json_loads s = match strip_prefix [65279%N] s with
                 | Some _ => None
                 | None => decode fuel s
                 end.
Proof.
  intros H. unfold json_loads, decode.
  destruct (strip_prefix [65279%N] s); [reflexivity|].
  pose proof (skip_ws_length s) as Hw.
  rewrite (scan_once_fuel fuel) by lia.
  rewrite (scan_once_fuel (2 * length s + 2)) by lia.
  reflexivity.
Qed.

(** What the decoder accepts, on small inputs: the empty text, a cut
    object, a trailing comma, a leading zero, a lone sign and a raw newline
    inside a string are refused. *)
Example json_loads_accepts :
  map (fun s => match json_loads s with Some _ => true | None => false end)
      [ lit ""; lit "{"; lit "[1,]"; lit "01"; lit "-";
        [dquote; newline; dquote];
        lit " [1, -2.5e3, true, null, [], {}, NaN] ";
        lit "{" ++ quoted "a" ++ lit ":{" ++ quoted "b" ++ lit ":[]}}";
        [dquote; backslash] ++ lit "ud83d" ++ [backslash] ++ lit "ude00"
        ++ [dquote] ]
  = [false; false; false; false; false; false; true; true; true].
Proof. vm_compute. reflexivity. Qed.

(** The decoder reads back what the encoder wrote for the mock response. *)
Example mock_response_round_trip :
  json_loads (json_dumps mock_response)
  = Some (JObject (map (fun kv => (fst kv, JString (snd kv))) mock_response)).
Proof. vm_compute. reflexivity. Qed.

(** The serialization of the mock response, character by character. *)
Example mock_response_text :
  json_dumps mock_response
  = lit "{" ++ quoted "temperature" ++ lit ": "
    ++ [dquote] ++ lit "72" ++ [backslash] ++ lit "u00b0F" ++ [dquote]
    ++ lit ", " ++ quoted "condition" ++ lit ": " ++ quoted "Sunny"
    ++ lit ", " ++ quoted "humidity" ++ lit ": " ++ quoted "45%" ++ lit "}".
Proof. vm_compute. reflexivity. Qed.

(** *** The head of the loop, case by case *)

Lemma stdout_accepts_app (a b : str) :
  stdout_accepts (a ++ b) = stdout_accepts a && stdout_accepts b.
Proof. apply forallb_app. Qed.

Lemma thinking_line_accepted (text : str) :
  stdout_accepts (thinking_line text) = stdout_accepts text.
Proof.
  unfold thinking_line.
  change (129300%N :: lit " Thinking: " ++ text)
    with ((129300%N :: lit " Thinking: ") ++ text).
  rewrite stdout_accepts_app. reflexivity.
Qed.

Lemma final_line_accepted (choice : Choice) :
  printable choice = true ->
  stdout_accepts (final_line (content (message choice))) = true.
Proof.
  unfold printable, final_line. rewrite stdout_accepts_app.
  destruct (content (message choice)) as [text|]; [|reflexivity].
  intros ->. reflexivity.
Qed.

(** What line 71 does to the state when the content can be printed. *)
Lemma thought_printable (choice : Choice) (st : State) :
  printable choice = true ->
  match content (message choice) with
  | Some (c :: text) =>
      print_stdout (thinking_line (c :: text)) (Thinking (c :: text)) st
  | _ => Some st
  end
  = Some match content (message choice) with
         | Some (c :: text) => emit (EvPrint (Thinking (c :: text))) st
         | _ => st
         end.
Proof.
  unfold printable, print_stdout.
  destruct (content (message choice)) as [[|c text]|]; try reflexivity.
  rewrite thinking_line_accepted. now intros ->.
Qed.

Lemma thought_unprintable (choice : Choice) (st : State) :
  printable choice = false ->
  match content (message choice) with
  | Some (c :: text) =>
      print_stdout (thinking_line (c :: text)) (Thinking (c :: text)) st
  | _ => Some st
  end = None.
Proof.
  unfold printable, print_stdout.
  destruct (content (message choice)) as [[|c text]|]; try discriminate.
  rewrite thinking_line_accepted. now intros ->.
Qed.

Section Head.

Variables (openai_client : Client) (st : State).

Lemma loop_head_raises :
  openai_client (request_for (messages st)) = None ->
  loop_head openai_client st
  = goto (SysExit 1)
      (emit (EvPrint OpenAICallFailed)
         (emit (EvCreate (request_for (messages st))) st)).
Proof. intros Hr. unfold loop_head. now rewrite Hr. Qed.

Lemma loop_head_no_choice (response : ChatCompletion) :
  openai_client (request_for (messages st)) = Some response ->
  choices response = [] ->
  loop_head openai_client st
  = goto (Uncaught (lit "IndexError"))
      (emit (EvCreate (request_for (messages st))) st).
Proof. intros Hr Hch. unfold loop_head. now rewrite Hr, Hch. Qed.

Lemma loop_head_unprintable (response : ChatCompletion) (choice : Choice)
    (others : list Choice) :
  openai_client (request_for (messages st)) = Some response ->
  choices response = choice :: others ->
  printable choice = false ->
  loop_head openai_client st
  = goto (Uncaught (lit "UnicodeEncodeError"))
      (emit (EvCreate (request_for (messages st))) st).
Proof.
  intros Hr Hch Hp. unfold loop_head.
  now rewrite Hr, Hch, (thought_unprintable _ _ Hp).
Qed.

(** With a content that can be printed, neither print raises. *)
Lemma loop_head_printable (response : ChatCompletion) (choice : Choice)
    (others : list Choice) :
  openai_client (request_for (messages st)) = Some response ->
  choices response = choice :: others ->
  printable choice = true ->
  loop_head openai_client st
  = let st1 := match content (message choice) with
               | Some (c :: text) =>
                   emit (EvPrint (Thinking (c :: text)))
                        (emit (EvCreate (request_for (messages st))) st)
               | _ => emit (EvCreate (request_for (messages st))) st
               end in
    if final_answer choice
    then goto Returned
           (emit (EvPrint (FinalResponse (content (message choice)))) st1)
    else match tool_calls (message choice) with
         | None | Some [] => goto Returned st1
         | Some (c :: rest) =>
             goto (ForLoop (c :: rest))
                  (append (AssistantDump (message choice)) st1)
         end.
Proof.
  intros Hr Hch Hp. unfold loop_head.
  rewrite Hr, Hch, (thought_printable _ _ Hp).
  unfold print_stdout. rewrite (final_line_accepted _ Hp). reflexivity.
Qed.

End Head.

(** The cases of the head of the loop: the call raises, the response has no
    choice, its content cannot be printed, or the loop goes on to line 73
    (with the finish reason, the tool calls and the content taken apart). *)
Ltac head_cases client st :=
  let response := fresh "response" in
  let choice := fresh "choice" in
  let others := fresh "others" in
  let Hr := fresh "Hr" in
  let Hch := fresh "Hch" in
  let Hp := fresh "Hp" in
  destruct (client (request_for (messages st))) as [response|] eqn:Hr;
  [ destruct (choices response) as [|choice others] eqn:Hch;
    [ rewrite (loop_head_no_choice client st response Hr Hch)
    | destruct (printable choice) eqn:Hp;
      [ rewrite (loop_head_printable client st response choice others
                   Hr Hch Hp);
        cbv zeta;
        destruct (final_answer choice);
        destruct (tool_calls (message choice)) as [[|?c ?rest]|] eqn:?Hcalls;
        destruct (content (message choice)) as [[|?x ?text]|]
      | rewrite (loop_head_unprintable client st response choice others
                   Hr Hch Hp) ] ]
  | rewrite (loop_head_raises client st Hr) ].

(** *** Running the machine *)

Section Machine.

Variable openai_client : Client.

Lemma run_add (n m : nat) (st : State) :
  run openai_client (n + m) st = run openai_client m (run openai_client n st).
Proof.
  revert st. induction n as [|n IH]; intros st; simpl; [reflexivity|].
  apply IH.
Qed.

Lemma run_S (n : nat) (st : State) :
  run openai_client (S n) st = step openai_client (run openai_client n st).
Proof.
  replace (S n) with (n + 1) by lia. now rewrite run_add.
Qed.

Lemma step_halted (st : State) :
  halted st = true -> step openai_client st = st.
Proof.
  unfold halted, step. destruct (control st); try discriminate; reflexivity.
Qed.

Lemma run_halted (n : nat) (st : State) :
  halted st = true -> run openai_client n st = st.
Proof.
  intros H. induction n as [|n IH]; simpl; [reflexivity|].
  now rewrite (step_halted _ H).
Qed.

(** One step of the [for] loop on a call whose arguments parse. *)
Lemma step_for_ok (st : State) (c : ToolCall) (rest : list ToolCall) :
  control st = ForLoop (c :: rest) -> parses c = true ->
  step openai_client st
  = {| messages := messages st ++ [tool_result c];
       events := EvAppend (tool_result c) :: EvLoads c :: events st;
       control := ForLoop rest |}.
Proof.
  intros Hc Hp. unfold step. rewrite Hc. unfold for_body, try_body.
  unfold parses in Hp.
  destruct (json_loads (fn_arguments (tc_function c))); [|discriminate].
  reflexivity.
Qed.

(** One step of the [for] loop on a call whose arguments do not parse. *)
Lemma step_for_fail (st : State) (c : ToolCall) (rest : list ToolCall) :
  control st = ForLoop (c :: rest) -> parses c = false ->
  step openai_client st
  = {| messages := messages st;
       events := EvPrint ToolCallFailed :: EvLoads c :: events st;
       control := SysExit 1 |}.
Proof.
  intros Hc Hp. unfold step. rewrite Hc. unfold for_body, try_body.
  unfold parses in Hp.
  destruct (json_loads (fn_arguments (tc_function c))); [discriminate|].
  reflexivity.
Qed.

(** The [for] loop runs the calls of the parsed prefix, one per step. *)
Lemma run_for_prefix (calls : list ToolCall) (st : State) :
  control st = ForLoop calls ->
  run openai_client (length (parsed_prefix calls)) st
  = {| messages := messages st ++ map tool_result (parsed_prefix calls);
       events := ran (parsed_prefix calls) ++ events st;
       control := ForLoop (skipn (length (parsed_prefix calls)) calls) |}.
Proof.
  revert st. induction calls as [|c calls IH]; intros st Hc.
  - simpl. rewrite app_nil_r. destruct st; simpl in *; now subst.
  - simpl. destruct (parses c) eqn:Hp.
    + simpl. rewrite (step_for_ok _ _ _ Hc Hp). rewrite IH by reflexivity.
      simpl. f_equal.
      * now rewrite <- app_assoc.
      * change (c :: parsed_prefix calls) with ([c] ++ parsed_prefix calls).
        unfold ran. rewrite flat_map_app, rev_app_distr, <- app_assoc.
        reflexivity.
    + simpl. rewrite app_nil_r. destruct st; simpl in *; now subst.
Qed.

Lemma parsed_prefix_all (calls : list ToolCall) :
  forallb parses calls = true -> parsed_prefix calls = calls.
Proof.
  induction calls as [|c calls IH]; simpl; [reflexivity|].
  intros H. apply andb_true_iff in H as [Hc Hr]. rewrite Hc. now rewrite IH.
Qed.

Lemma parsed_prefix_stuck (calls : list ToolCall) :
  forallb parses calls = false ->
  exists c rest,
    skipn (length (parsed_prefix calls)) calls = c :: rest /\ parses c = false.
Proof.
  induction calls as [|c calls IH]; simpl; [discriminate|].
  destruct (parses c) eqn:Hp; simpl.
  - intros H. apply IH in H. exact H.
  - intros _. now exists c, calls.
Qed.

(** The head of the loop on a response whose content cannot be printed:
    line 71 raises, nothing is printed and nothing is appended. *)
Lemma step_head_unprintable (st : State) (response : ChatCompletion)
    (choice : Choice) (others : list Choice) :
  control st = LoopHead ->
  openai_client (request_for (messages st)) = Some response ->
  choices response = choice :: others ->
  printable choice = false ->
  step openai_client st
  = {| messages := messages st;
       events := EvCreate (request_for (messages st)) :: events st;
       control := Uncaught (lit "UnicodeEncodeError") |}.
Proof.
  intros Hc Hr Hch Hp. unfold step. rewrite Hc. unfold loop_head.
  rewrite Hr, Hch, (thought_unprintable _ _ Hp). reflexivity.
Qed.

(** The head of the loop on a response whose first choice asks for tool
    calls. *)
Lemma step_head_calls (st : State) (response : ChatCompletion)
    (choice : Choice) (others : list Choice) :
  control st = LoopHead ->
  openai_client (request_for (messages st)) = Some response ->
  choices response = choice :: others ->
  printable choice = true ->
  final_answer choice = false -> no_tool_calls choice = false ->
  messages (step openai_client st)
  = messages st ++ [AssistantDump (message choice)]
  /\ control (step openai_client st) = ForLoop (requested (message choice))
  /\ requests_sent (step openai_client st) = S (requests_sent st)
  /\ exists printed,
       events (step openai_client st)
       = EvAppend (AssistantDump (message choice)) :: printed
         ++ EvCreate (request_for (messages st)) :: events st
       /\ Forall (fun e => exists l, e = EvPrint l) printed.
Proof.
  intros Hc Hr Hch Hp Hf Hn. unfold step. rewrite Hc. unfold loop_head.
  rewrite Hr, Hch, (thought_printable _ _ Hp).
  unfold final_answer in Hf. rewrite Hf.
  unfold no_tool_calls in Hn. unfold requested.
  destruct (tool_calls (message choice)) as [[|c rest]|]; try discriminate.
  destruct (content (message choice)) as [[|x text]|]; simpl;
    unfold requests_sent; simpl; repeat split; try reflexivity.
  - exists []. split; [reflexivity | constructor].
  - exists [EvPrint (Thinking (x :: text))]. split; [reflexivity|].
    repeat constructor. now exists (Thinking (x :: text)).
  - exists []. split; [reflexivity | constructor].
Qed.

Lemma final_answer_iff (choice : Choice) :
  final_answer choice = true
  <-> exists reason, finish_reason choice = Some reason
                     /\ reason <> [] /\ reason <> lit "tool_calls".
Proof.
  unfold final_answer, truthy, differs.
  destruct (finish_reason choice) as [[|x r]|]; cbn [andb].
  - split; [discriminate|]. intros (reason & H & Hne & _).
    inversion H; subst. contradiction.
  - split.
    + intros H. exists (x :: r). repeat split; [discriminate|].
      intros E. apply str_eqb_eq in E.
      apply negb_true_iff in H. rewrite E in H. discriminate.
    + intros (reason & H & _ & Hd). inversion H; subst.
      apply negb_true_iff. destruct (str_eqb (x :: r) (lit "tool_calls")) eqn:E;
        [|reflexivity].
      apply str_eqb_eq in E. contradiction.
  - split; [discriminate|]. intros (reason & H & _). discriminate.
Qed.

Lemma no_tool_calls_iff (choice : Choice) :
  no_tool_calls choice = true
  <-> tool_calls (message choice) = None
      \/ tool_calls (message choice) = Some [].
Proof.
  unfold no_tool_calls.
  destruct (tool_calls (message choice)) as [[|c rest]|]; split;
    try discriminate; auto; intros [H|H]; discriminate.
Qed.

(** The head of the loop on a response whose first choice ends the loop. *)
Lemma step_head_break (st : State) (response : ChatCompletion)
    (choice : Choice) (others : list Choice) :
  control st = LoopHead ->
  openai_client (request_for (messages st)) = Some response ->
  choices response = choice :: others ->
  printable choice = true ->
  final_answer choice = true \/ no_tool_calls choice = true ->
  control (step openai_client st) = Returned
  /\ messages (step openai_client st) = messages st.
Proof.
  intros Hc Hr Hch Hp Hb. unfold step. rewrite Hc. unfold loop_head.
  rewrite Hr, Hch, (thought_printable _ _ Hp).
  unfold print_stdout. rewrite (final_line_accepted _ Hp).
  unfold final_answer, no_tool_calls in Hb.
  destruct (truthy (finish_reason choice)
            && differs (finish_reason choice) (lit "tool_calls")) eqn:Hf.
  - destruct (content (message choice)) as [[|x text]|]; now split.
  - destruct Hb as [Hb|Hb]; [discriminate|].
    destruct (tool_calls (message choice)) as [[|c rest]|]; try discriminate;
      destruct (content (message choice)) as [[|x text]|]; now split.
Qed.

Lemma requests_sent_ran (done : list ToolCall) (ms : list Message)
    (evs : list Event) (c : Control) :
  requests_sent {| messages := ms; events := ran done ++ evs; control := c |}
  = length (filter (fun e => match e with EvCreate _ => true | _ => false end)
                   evs).
Proof.
  unfold requests_sent, ran. cbn [events]. rewrite filter_app, length_app.
  replace (filter _ (rev _)) with (@nil Event); [reflexivity|].
  induction done as [|d l IH]; [reflexivity|].
  cbn [flat_map app rev]. rewrite <- app_assoc, filter_app, <- IH.
  reflexivity.
Qed.

(** From the [for] loop to its end: back at the head of the loop when every
    call parses, out with status 1 at the first that does not. *)
Lemma run_for_loop (calls : list ToolCall) (st : State) :
  control st = ForLoop calls ->
  let st' := run openai_client (length (parsed_prefix calls) + 1) st in
  messages st' = messages st ++ map tool_result (parsed_prefix calls)
  /\ requests_sent st' = requests_sent st
  /\ (forallb parses calls = true -> control st' = LoopHead)
  /\ (forallb parses calls = false -> control st' = SysExit 1).
Proof.
  intros Hc st'. subst st'. rewrite run_add, (run_for_prefix _ _ Hc).
  cbn [run].
  destruct (forallb parses calls) eqn:Hall.
  - rewrite (parsed_prefix_all _ Hall), skipn_all.
    unfold step. cbn [control messages goto events].
    split; [reflexivity|]. split; [|split; [reflexivity | discriminate]].
    apply (requests_sent_ran calls).
  - destruct (parsed_prefix_stuck _ Hall) as (c & rest & Hskip & Hp).
    rewrite Hskip.
    erewrite step_for_fail; [|reflexivity|exact Hp].
    cbn [control messages events].
    split; [reflexivity|]. split; [|split; [discriminate | reflexivity]].
    change (EvPrint ToolCallFailed :: EvLoads c :: ran (parsed_prefix calls) ++ events st)
      with ([EvPrint ToolCallFailed; EvLoads c] ++ ran (parsed_prefix calls) ++ events st).
    unfold requests_sent at 1. cbn [events]. rewrite filter_app, length_app.
    cbn [filter length plus].
    apply (requests_sent_ran (parsed_prefix calls) [] (events st) LoopHead).
Qed.

Lemma filter_tool_results (calls : list ToolCall) :
  filter is_tool_result (map tool_result calls) = map tool_result calls.
Proof.
  induction calls as [|c l IH]; [reflexivity|].
  cbn [map filter tool_result is_tool_result]. now rewrite IH.
Qed.

(** C9.  For a tool call whose arguments parse as JSON, the tool message
    appended for it has the id of the call and, as content, the
    serialization of the mock response, which is one fixed text: neither the
    name of the tool nor the parsed arguments enter it, so two calls with
    different valid arguments get the same content. *)
Theorem tool_message_content_fixed (st1 st2 : State) (c1 c2 : ToolCall)
    (rest1 rest2 : list ToolCall) (v1 v2 : json) :
  control st1 = ForLoop (c1 :: rest1) ->
  control st2 = ForLoop (c2 :: rest2) ->
  json_loads (fn_arguments (tc_function c1)) = Some v1 ->
  json_loads (fn_arguments (tc_function c2)) = Some v2 ->
  let fixed :=
    lit "{" ++ quoted "temperature" ++ lit ": "
    ++ [dquote] ++ lit "72" ++ [backslash] ++ lit "u00b0F" ++ [dquote]
    ++ lit ", " ++ quoted "condition" ++ lit ": " ++ quoted "Sunny"
    ++ lit ", " ++ quoted "humidity" ++ lit ": " ++ quoted "45%" ++ lit "}" in
  fixed = json_dumps mock_response
  /\ messages (step openai_client st1)
     = messages st1 ++ [ToolResult (tc_id c1) fixed]
  /\ messages (step openai_client st2)
     = messages st2 ++ [ToolResult (tc_id c2) fixed].
Proof.
  intros H1 H2 P1 P2 fixed.
  assert (E : fixed = json_dumps mock_response)
    by (symmetry; exact mock_response_text).
  split; [exact E|]. rewrite E.
  split.
  - rewrite (step_for_ok _ _ _ H1); [reflexivity|]. unfold parses. now rewrite P1.
  - rewrite (step_for_ok _ _ _ H2); [reflexivity|]. unfold parses. now rewrite P2.
Qed.

(** C2, as the code has it.  A tool call whose arguments do not parse ends
    the run: the failure is printed on the error stream, the script exits
    with status 1, no message is appended for the call, and nothing happens
    afterwards. *)
Theorem failed_tool_call_exits (st : State) (c : ToolCall)
    (rest : list ToolCall) :
  control st = ForLoop (c :: rest) ->
  json_loads (fn_arguments (tc_function c)) = None ->
  let st' := step openai_client st in
  control st' = SysExit 1
  /\ messages st' = messages st
  /\ events st' = EvPrint ToolCallFailed :: EvLoads c :: events st
  /\ forall n, run openai_client n st' = st'.
Proof.
  intros Hc Hp st'. subst st'.
  rewrite (step_for_fail _ _ _ Hc); [|unfold parses; now rewrite Hp].
  repeat split. intros n. now apply run_halted.
Qed.

(** C1, as the code has it.  On a response whose tool calls the loop takes
    up (a content that can be printed, no final finish reason, at least one
    call), the messages appended in that turn are the assistant message and
    then one tool message per call, in the order of the calls, up to the
    first call whose arguments do not parse.  When all parse, the tool
    messages are as many as the calls, the i-th carries the id of the i-th
    call, and the loop is back at its head; otherwise the script has exited
    with status 1. *)
Theorem tool_messages_follow_calls (st : State) (response : ChatCompletion)
    (choice : Choice) (others : list Choice) :
  control st = LoopHead ->
  openai_client (request_for (messages st)) = Some response ->
  choices response = choice :: others ->
  printable choice = true ->
  final_answer choice = false ->
  no_tool_calls choice = false ->
  let calls := requested (message choice) in
  let st' := run openai_client (length (parsed_prefix calls) + 2) st in
  messages st'
  = messages st ++ AssistantDump (message choice)
                   :: map tool_result (parsed_prefix calls)
  /\ (forallb parses calls = true ->
      control st' = LoopHead
      /\ length (filter is_tool_result
                   (skipn (length (messages st)) (messages st')))
         = length calls
      /\ forall i c, nth_error calls i = Some c ->
           nth_error (skipn (S (length (messages st))) (messages st')) i
           = Some (ToolResult (tc_id c) (json_dumps mock_response)))
  /\ (forallb parses calls = false -> control st' = SysExit 1).
Proof.
  intros Hc Hr Hch Hp Hf Hn calls st'.
  destruct (step_head_calls _ _ _ _ Hc Hr Hch Hp Hf Hn) as (Hm & Hctl & _ & _).
  assert (E : st' = run openai_client (length (parsed_prefix calls) + 1)
                        (step openai_client st)).
  { unfold st'. replace (length (parsed_prefix calls) + 2)
      with (S (length (parsed_prefix calls) + 1)) by lia. reflexivity. }
  destruct (run_for_loop _ _ Hctl) as (Hm' & _ & Hok & Hko).
  fold calls in Hm', Hok, Hko. rewrite <- E in Hm', Hok, Hko.
  assert (Hmsgs : messages st'
            = messages st ++ AssistantDump (message choice)
                             :: map tool_result (parsed_prefix calls)).
  { rewrite Hm', Hm, <- app_assoc. reflexivity. }
  split; [exact Hmsgs|]. split; [|exact Hko].
  intros Hall. split; [now apply Hok|].
  rewrite Hmsgs, (parsed_prefix_all _ Hall). split.
  - rewrite skipn_app, skipn_all, Nat.sub_diag.
    cbn [app skipn filter is_tool_result].
    now rewrite filter_tool_results, length_map.
  - intros i c Hi.
    change (S (length (messages st))) with (1 + length (messages st)).
    rewrite <- skipn_skipn, skipn_app, skipn_all, Nat.sub_diag.
    cbn [app skipn]. now apply (map_nth_error tool_result).
Qed.

(** Every pass through the head of the loop sends one request. *)
Lemma step_head_sends (st : State) :
  control st = LoopHead ->
  requests_sent (step openai_client st) = S (requests_sent st).
Proof.
  intros Hc. unfold step. rewrite Hc.
  head_cases openai_client st; reflexivity.
Qed.

Lemma requests_sent_halted (n : nat) (st : State) :
  halted st = true ->
  requests_sent (run openai_client n st) = requests_sent st.
Proof. intros H. now rewrite run_halted. Qed.

Lemma requested_nonempty (choice : Choice) :
  requested (message choice) <> [] <-> no_tool_calls choice = false.
Proof.
  unfold requested, no_tool_calls.
  destruct (tool_calls (message choice)) as [[|c rest]|]; split;
    try congruence; try discriminate; intros; exfalso; auto.
Qed.

(** C5, as the code has it.  On a response with a first choice whose
    content can be printed, the loop ends by [break] exactly when the finish
    reason is set, not empty and not [tool_calls], or when the message has
    no tool calls; nothing is requested afterwards.  Otherwise the
    assistant message is appended and the tool calls are run: when the
    arguments of all of them parse the loop is back at its head and its next
    step sends another completion request, and when some do not the script
    exits with status 1 and sends none.  A response without any choice, or
    with a content that cannot be printed, stops the run with an uncaught
    exception, and nothing is requested afterwards. *)
Theorem loop_exit_condition (st : State) (response : ChatCompletion) :
  control st = LoopHead ->
  openai_client (request_for (messages st)) = Some response ->
  let st1 := step openai_client st in
  (choices response = [] ->
   control st1 = Uncaught (lit "IndexError")
   /\ forall n, run openai_client n st1 = st1)
  /\ forall choice others,
       choices response = choice :: others ->
       let calls := requested (message choice) in
       let st2 := run openai_client (length (parsed_prefix calls) + 1) st1 in
       (printable choice = false ->
        control st1 = Uncaught (lit "UnicodeEncodeError")
        /\ forall n, run openai_client n st1 = st1)
       /\ (printable choice = true ->
           (control st1 = Returned
            <-> (exists reason, finish_reason choice = Some reason
                                /\ reason <> [] /\ reason <> lit "tool_calls")
                \/ tool_calls (message choice) = None
                \/ tool_calls (message choice) = Some [])
           /\ (control st1 = Returned ->
               forall n, run openai_client n st1 = st1)
           /\ (control st1 <> Returned ->
               control st1 = ForLoop calls
               /\ messages st1
                  = messages st ++ [AssistantDump (message choice)]
               /\ (forallb parses calls = true ->
                   control st2 = LoopHead
                   /\ requests_sent (step openai_client st2)
                      = S (requests_sent st1))
               /\ (forallb parses calls = false ->
                   control st2 = SysExit 1
                   /\ forall n, requests_sent (run openai_client n st2)
                                = requests_sent st1))).
Proof.
  intros Hc Hr st1. split.
  { intros Hch. unfold st1, step. rewrite Hc.
    rewrite (loop_head_no_choice _ _ _ Hr Hch).
    split; [reflexivity|]. intros n. now apply run_halted. }
  intros choice others Hch calls st2. split.
  { intros Hp. unfold st1.
    rewrite (step_head_unprintable _ _ _ _ Hc Hr Hch Hp).
    split; [reflexivity|]. intros n. now apply run_halted. }
  intros Hp.
  assert (Hbreak : final_answer choice = true \/ no_tool_calls choice = true
                   -> control st1 = Returned).
  { intros H. now destruct (step_head_break _ _ _ _ Hc Hr Hch Hp H). }
  assert (Hgo : final_answer choice = false -> no_tool_calls choice = false ->
                control st1 = ForLoop calls
                /\ messages st1 = messages st ++ [AssistantDump (message choice)]).
  { intros Hf Hn.
    destruct (step_head_calls _ _ _ _ Hc Hr Hch Hp Hf Hn) as (Hm & Hctl & _).
    now split. }
  split; [|split].
  - rewrite <- final_answer_iff.
    rewrite <- or_assoc, (or_assoc (final_answer choice = true)).
    rewrite <- no_tool_calls_iff. split; [|exact Hbreak].
    intros Hret.
    destruct (final_answer choice) eqn:Hf; [now left|].
    destruct (no_tool_calls choice) eqn:Hn; [now right|].
    destruct (Hgo eq_refl eq_refl) as [Hctl _]. congruence.
  - intros Hret n. apply run_halted. unfold halted. now rewrite Hret.
  - intros Hnot.
    destruct (final_answer choice) eqn:Hf; [exfalso; auto|].
    destruct (no_tool_calls choice) eqn:Hn; [exfalso; auto|].
    destruct (Hgo eq_refl eq_refl) as [Hctl Hm].
    destruct (run_for_loop _ _ Hctl) as (_ & Hsent & Hok & Hko).
    fold st2 in Hsent, Hok, Hko.
    repeat split; auto.
    + rewrite step_head_sends by auto. now rewrite Hsent.
    + specialize (Hko H). intros n. rewrite requests_sent_halted; [exact Hsent|].
      unfold halted. now rewrite Hko.
Qed.

(** *** An endpoint that always asks for the same tool calls *)

Section SameCallsForever.

Variables (response : ChatCompletion) (choice : Choice)
          (others : list Choice).

Hypothesis same_answer : forall request, openai_client request = Some response.
Hypothesis first_choice : choices response = choice :: others.
Hypothesis can_print : printable choice = true.
Hypothesis goes_on : final_answer choice = false.
Hypothesis some_calls : no_tool_calls choice = false.
Hypothesis all_parse : forallb parses (requested (message choice)) = true.

Lemma alive_step (st : State) : alive st -> alive (step openai_client st).
Proof.
  intros [Hc | (pending & Hc & Hp)].
  - right. exists (requested (message choice)). split; [|exact all_parse].
    now destruct (step_head_calls st response choice others Hc
                    (same_answer _) first_choice can_print goes_on some_calls)
      as (_ & Hctl & _).
  - destruct pending as [|c rest].
    + left. unfold step. now rewrite Hc.
    + right. exists rest. simpl in Hp. apply andb_true_iff in Hp as [Hpc Hpr].
      rewrite (step_for_ok _ _ _ Hc Hpc). now split.
Qed.

Lemma alive_run (n : nat) (st : State) :
  alive st -> alive (run openai_client n st).
Proof.
  revert st. induction n as [|n IH]; intros st H; simpl; [exact H|].
  apply IH, alive_step, H.
Qed.

Lemma alive_not_halted (st : State) : alive st -> halted st = false.
Proof.
  unfold halted. intros [Hc | (pending & Hc & _)]; now rewrite Hc.
Qed.

(** One turn: the head of the loop, the calls, and back to the head. *)
Lemma run_turn (st : State) :
  control st = LoopHead ->
  let st' := run openai_client (length (requested (message choice)) + 2) st in
  control st' = LoopHead
  /\ requests_sent st' = S (requests_sent st)
  /\ messages st'
     = messages st ++ AssistantDump (message choice)
                      :: map tool_result (requested (message choice)).
Proof.
  intros Hc st'.
  destruct (step_head_calls st response choice others Hc
              (same_answer _) first_choice can_print goes_on some_calls)
    as (Hm & Hctl & Hsent & _).
  destruct (run_for_loop _ _ Hctl) as (Hm' & Hsent' & Hok & _).
  rewrite (parsed_prefix_all _ all_parse) in Hm', Hsent', Hok.
  assert (E : st' = run openai_client (length (requested (message choice)) + 1)
                        (step openai_client st)).
  { unfold st'. replace (length (requested (message choice)) + 2)
      with (S (length (requested (message choice)) + 1)) by lia. reflexivity. }
  rewrite E. split; [now apply Hok|]. split; [congruence|].
  rewrite Hm', Hm, <- app_assoc. reflexivity.
Qed.

Lemma run_turns (k : nat) (st : State) :
  control st = LoopHead ->
  let turn := length (requested (message choice)) + 2 in
  let st' := run openai_client (k * turn) st in
  control st' = LoopHead
  /\ requests_sent st' = requests_sent st + k
  /\ length (messages st')
     = length (messages st) + k * (1 + length (requested (message choice))).
Proof.
  intros Hc turn. induction k as [|k IH]; intros st'.
  - subst st'. simpl. repeat split; auto; lia.
  - destruct IH as (Hk & Hs & Hl).
    assert (E : st' = run openai_client turn (run openai_client (k * turn) st)).
    { unfold st'. rewrite <- run_add. f_equal. lia. }
    destruct (run_turn _ Hk) as (Hc' & Hs' & Hm'). fold turn in Hc', Hs', Hm'.
    rewrite E. split; [exact Hc'|]. split; [lia|].
    rewrite Hm', length_app. cbn [length]. rewrite length_map. lia.
Qed.

Lemma main_never_halts (n : nat) : halted (main openai_client n) = false.
Proof. apply alive_not_halted, alive_run. now left. Qed.

End SameCallsForever.

(** C3, as the code has it.  With an endpoint that always asks for the same
    tool calls (a content that can be printed, finish reason [tool_calls],
    at least one call, arguments that parse), the loop has no bound: the run has not stopped after any
    number of steps, and after [k] turns it is at the head of the loop
    again, has sent [k] completion requests and holds the two seed messages
    and, per turn, the assistant message and one tool message per call. *)
Theorem loop_has_no_cap (response : ChatCompletion) (choice : Choice)
    (others : list Choice) :
  (forall request, openai_client request = Some response) ->
  choices response = choice :: others ->
  printable choice = true ->
  finish_reason choice = Some (lit "tool_calls") ->
  requested (message choice) <> [] ->
  forallb parses (requested (message choice)) = true ->
  (forall n, halted (main openai_client n) = false)
  /\ forall k,
       let st := main openai_client
                   (k * (length (requested (message choice)) + 2)) in
       control st = LoopHead
       /\ requests_sent st = k
       /\ length (messages st)
          = 2 + k * (1 + length (requested (message choice))).
Proof.
  intros Hsame Hch Hp Hfr Hreq Hall.
  assert (Hf : final_answer choice = false).
  { unfold final_answer. rewrite Hfr. unfold differs.
    rewrite str_eqb_refl. apply andb_false_r. }
  assert (Hn : no_tool_calls choice = false) by now apply requested_nonempty.
  split.
  - intros n.
    exact (main_never_halts response choice others Hsame Hch Hp Hf Hn Hall n).
  - intros k st.
    destruct (run_turns response choice others Hsame Hch Hp Hf Hn Hall k
                initial eq_refl) as (Hc & Hs & Hl).
    repeat split; auto.
Qed.

(** *** The invariant of the conversation *)

Lemma appended_snoc (effects : list Event) (e : Event) :
  appended (effects ++ [e])
  = appended effects ++ match e with EvAppend m => [m] | _ => [] end.
Proof.
  unfold appended. rewrite flat_map_app. cbn [flat_map].
  now rewrite app_nil_r.
Qed.

Lemma invariant_emit (st : State) (e : Event) :
  invariant st ->
  match e with
  | EvCreate _ | EvPrint _ => True
  | EvLoads c => In c (calls_announced (events st))
  | EvAppend _ => False
  end ->
  invariant (emit e st).
Proof.
  intros (Ha & Hb & Hm & Hc) He. unfold invariant, emit, trace.
  cbn [messages events control rev].
  rewrite appended_snoc.
  destruct e as [request|line|m|c]; try contradiction;
    cbn [announced_first calls_announced]; rewrite app_nil_r;
    repeat split; auto.
Qed.

Lemma invariant_goto_stop (st : State) (c : Control) :
  invariant st ->
  match c with ForLoop _ => False | _ => True end ->
  invariant (goto c st).
Proof.
  intros (Ha & Hb & Hm & _) Hc. unfold invariant, goto.
  cbn [messages events control].
  split; [exact Ha|]. split; [exact Hb|]. split; [exact Hm|].
  destruct c; auto; contradiction.
Qed.

Lemma invariant_initial : invariant initial.
Proof. unfold invariant, initial, trace. simpl. auto. Qed.

Lemma invariant_loop_head (st : State) :
  invariant st -> invariant (loop_head openai_client st).
Proof.
  intros Hinv.
  assert (H0 : invariant (emit (EvCreate (request_for (messages st))) st))
    by (apply invariant_emit; auto).
  assert (H1 : forall line,
            invariant (emit (EvPrint line)
                         (emit (EvCreate (request_for (messages st))) st)))
    by (intros; apply invariant_emit; auto).
  head_cases openai_client st;
    try (apply invariant_goto_stop; [|exact I];
         repeat (apply invariant_emit; auto); fail).
  all: match goal with
       | |- invariant (goto (ForLoop _) (append _ ?s)) =>
           assert (Hs : invariant s) by (repeat (apply invariant_emit; auto));
           destruct Hs as (Ha & Hb & Hm & _)
       end;
    unfold invariant, goto, append, trace;
    cbn [messages events control rev];
    rewrite rev_unit, appended_snoc;
    cbn [answers_follow announced_first calls_in_force calls_announced];
    unfold requested; rewrite Hcalls;
    (split; [exact Ha|]); (split; [exact Hb|]);
    (split; [unfold trace in Hm; rewrite Hm; now rewrite app_assoc|]);
    split; now exists [].
Qed.

Lemma invariant_for_body (st : State) (c : ToolCall) (rest : list ToolCall) :
  invariant st -> control st = ForLoop (c :: rest) ->
  invariant (for_body c rest st).
Proof.
  intros Hinv Hc. unfold for_body.
  assert (Hin : In c (calls_announced (events st))).
  { destruct Hinv as (_ & _ & _ & H). rewrite Hc in H.
    destruct H as (_ & done & ->). apply in_or_app. right. now left. }
  assert (H0 : invariant (emit (EvLoads c) st)) by (apply invariant_emit; auto).
  destruct (try_body c) as [tool_response|].
  2:{ apply invariant_goto_stop; [|exact I]. apply invariant_emit; auto. }
  destruct Hinv as (Ha & Hb & Hm & Hctl). rewrite Hc in Hctl.
  destruct Hctl as ((done1 & Hd1) & (done2 & Hd2)).
  unfold invariant, goto, append, emit, trace.
  cbn [messages events control rev].
  rewrite rev_unit, !appended_snoc, app_nil_r.
  cbn [answers_follow announced_first calls_in_force calls_announced].
  rewrite Hd1, Hd2, !map_app. cbn [map].
  repeat split; auto.
  - apply in_or_app. right. now left.
  - apply in_or_app. right. now left.
  - rewrite <- Hd2. exact Hin.
  - unfold trace in Hm. rewrite Hm. now rewrite app_assoc.
  - exists (done1 ++ [c]). now rewrite <- app_assoc.
  - exists (done2 ++ [c]). now rewrite <- app_assoc.
Qed.

Lemma invariant_step (st : State) :
  invariant st -> invariant (step openai_client st).
Proof.
  intros Hinv. unfold step.
  destruct (control st) as [|[|c rest]| | |] eqn:Hc; auto.
  - now apply invariant_loop_head.
  - apply invariant_goto_stop; auto.
  - now apply invariant_for_body.
Qed.

Lemma invariant_main (n : nat) : invariant (main openai_client n).
Proof.
  unfold main. generalize invariant_initial. generalize initial.
  induction n as [|n IH]; intros st H; simpl; [exact H|].
  apply IH, invariant_step, H.
Qed.

Lemma answers_follow_suffix (newer older : list Message) :
  answers_follow (newer ++ older) -> answers_follow older.
Proof.
  induction newer as [|m newer IH]; [auto|].
  destruct m; cbn [app answers_follow]; intuition.
Qed.

Lemma announced_first_suffix (newer older : list Event) :
  announced_first (newer ++ older) -> announced_first older.
Proof.
  induction newer as [|e newer IH]; [auto|].
  destruct e as [r|l|[]|c]; cbn [app announced_first]; intuition.
Qed.

(** Where the calls in force come from: the assistant message nearest to
    the end, with tool results only after it. *)
Lemma calls_in_force_source (latest_first : list Message) (c : ToolCall) :
  In c (calls_in_force latest_first) ->
  exists results m older,
    latest_first = results ++ AssistantDump m :: older
    /\ forallb is_tool_result results = true
    /\ In c (requested m).
Proof.
  induction latest_first as [|x l IH]; cbn [calls_in_force]; [contradiction|].
  destruct x as [role text|m|id text].
  - contradiction.
  - intros H. now exists [], m, l.
  - intros H. destruct (IH H) as (results & m & older & -> & Hr & Hin).
    exists (ToolResult id text :: results), m, older. now repeat split.
Qed.

Lemma calls_announced_source (latest_first : list Event) (c : ToolCall) :
  In c (calls_announced latest_first) ->
  exists newer m older,
    latest_first = newer ++ EvAppend (AssistantDump m) :: older
    /\ (forall m', ~ In (EvAppend (AssistantDump m')) newer)
    /\ In c (requested m).
Proof.
  induction latest_first as [|x l IH]; cbn [calls_announced]; [contradiction|].
  assert (Hskip : (forall m, x <> EvAppend (AssistantDump m)) ->
                  In c (calls_announced l) ->
                  exists newer m older,
                    x :: l = newer ++ EvAppend (AssistantDump m) :: older
                    /\ (forall m', ~ In (EvAppend (AssistantDump m')) newer)
                    /\ In c (requested m)).
  { intros Hx H. destruct (IH H) as (newer & m & older & -> & Hn & Hin).
    exists (x :: newer), m, older. repeat split; auto.
    intros m' [E|E]; [now apply (Hx m') | now apply (Hn m')]. }
  destruct x as [r|line|[role text|m|id text]|c'];
    try (apply Hskip; intros; discriminate).
  intros H. exists [], m, l. repeat split; auto.
Qed.

Lemma rev_split {A : Type} (l before after : list A) (x : A) :
  l = before ++ x :: after -> rev l = rev after ++ x :: rev before.
Proof.
  intros ->. rewrite rev_app_distr. cbn [rev]. now rewrite <- app_assoc.
Qed.

Lemma forallb_rev {A : Type} (f : A -> bool) (l : list A) :
  forallb f (rev l) = forallb f l.
Proof.
  induction l as [|x l IH]; [reflexivity|].
  cbn [rev forallb]. rewrite forallb_app, IH. cbn [forallb].
  rewrite andb_true_r. apply andb_comm.
Qed.

Lemma in_map_id (id : str) (calls : list ToolCall) :
  In id (map tc_id calls) -> exists c, In c calls /\ tc_id c = id.
Proof.
  intros H. apply in_map_iff in H as (c & E & Hin). now exists c.
Qed.

(** An effect that the invariant ties to announced calls has an assistant
    message appended before it, with no other one in between. *)
Lemma announced_before (n : nat) (earlier later : list Event) (e : Event)
    (c : ToolCall) :
  trace (main openai_client n) = earlier ++ e :: later ->
  (announced_first (e :: rev earlier) -> In c (calls_announced (rev earlier))) ->
  exists e0 m e1,
    earlier = e0 ++ EvAppend (AssistantDump m) :: e1
    /\ (forall m', ~ In (EvAppend (AssistantDump m')) e1)
    /\ In c (requested m).
Proof.
  intros Ht Hin.
  destruct (invariant_main n) as (_ & Hb & _).
  unfold trace in Ht. apply rev_split in Ht. rewrite rev_involutive in Ht.
  rewrite Ht in Hb. apply announced_first_suffix in Hb.
  destruct (calls_announced_source _ _ (Hin Hb))
    as (newer & m & older & Hrev & Hn & Hc).
  exists (rev older), m, (rev newer).
  apply rev_split in Hrev. rewrite rev_involutive in Hrev.
  repeat split; auto.
  intros m' H. apply in_rev in H. now apply (Hn m').
Qed.

(** C4.  In every state [main] reaches: a tool message in the message list
    comes after an assistant message that requested a call with its id, with
    tool messages only in between; every [json.loads] of a tool call and
    every append of a tool message happens after the append of an assistant
    message that requested the call, with no other assistant message
    appended in between; and the message list is the two seed messages
    followed by the appended messages in the order of the appends. *)
Theorem assistant_message_precedes_results (n : nat) :
  let st := main openai_client n in
  (forall pre id text post,
     messages st = pre ++ ToolResult id text :: post ->
     exists before m between c,
       pre = before ++ AssistantDump m :: between
       /\ forallb is_tool_result between = true
       /\ In c (requested m) /\ tc_id c = id)
  /\ (forall earlier c later,
        trace st = earlier ++ EvLoads c :: later ->
        exists e0 m e1,
          earlier = e0 ++ EvAppend (AssistantDump m) :: e1
          /\ (forall m', ~ In (EvAppend (AssistantDump m')) e1)
          /\ In c (requested m))
  /\ (forall earlier id text later,
        trace st = earlier ++ EvAppend (ToolResult id text) :: later ->
        exists e0 m e1 c,
          earlier = e0 ++ EvAppend (AssistantDump m) :: e1
          /\ (forall m', ~ In (EvAppend (AssistantDump m')) e1)
          /\ In c (requested m) /\ tc_id c = id)
  /\ messages st = messages initial ++ appended (trace st).
Proof.
  intros st. subst st. destruct (invariant_main n) as (Ha & Hb & Hm & _).
  split; [|split; [|split; [|exact Hm]]].
  - intros pre id text post Hsplit.
    apply rev_split in Hsplit. rewrite Hsplit in Ha.
    apply answers_follow_suffix in Ha. cbn [answers_follow] in Ha.
    destruct Ha as [Hin _]. apply in_map_id in Hin as (c & Hin & Hid).
    destruct (calls_in_force_source _ _ Hin)
      as (results & m & older & Hrev & Hres & Hc).
    exists (rev older), m, (rev results), c.
    apply rev_split in Hrev. rewrite rev_involutive in Hrev.
    repeat split; auto. now rewrite forallb_rev.
  - intros earlier c later Ht.
    apply (announced_before n earlier later (EvLoads c) c Ht).
    cbn [announced_first]. tauto.
  - intros earlier id text later Ht.
    destruct (invariant_main n) as (_ & Hb' & _).
    pose proof Ht as Ht'. unfold trace in Ht'. apply rev_split in Ht'.
    rewrite rev_involutive in Ht'. rewrite Ht' in Hb'.
    apply announced_first_suffix in Hb'. cbn [announced_first] in Hb'.
    destruct Hb' as [Hin _]. apply in_map_id in Hin as (c & Hin & Hid).
    destruct (announced_before n earlier later _ c Ht (fun _ => Hin))
      as (e0 & m & e1 & He & Hn & Hc).
    now exists e0, m, e1, c.
Qed.

End Machine.

(** *** The machine on concrete endpoints *)

(** The scenario of a weather question: one tool call, its result, then the
    final answer.  The final answer is printed and not appended. *)
Example weather_scenario :
  let st := main (scripted [asks_weather; answers_sunny]) 4 in
  control st = Returned
  /\ messages st
     = messages initial
       ++ [ AssistantDump {| content := None;
                             tool_calls := Some [weather_call] |};
            ToolResult (lit "call_1") (json_dumps mock_response) ]
  /\ trace st
     = [ EvCreate (request_for (messages initial));
         EvAppend (AssistantDump {| content := None;
                                    tool_calls := Some [weather_call] |});
         EvLoads weather_call;
         EvAppend (ToolResult (lit "call_1") (json_dumps mock_response));
         EvCreate (request_for (messages st));
         EvPrint (Thinking sunny);
         EvPrint (FinalResponse (Some sunny)) ].
Proof. vm_compute. repeat split. Qed.

Example parses_examples :
  map parses [weather_call; forecast_call; broken_call; misnamed_call]
  = [true; true; false; true].
Proof. vm_compute. reflexivity. Qed.

Lemma tool_message_content_fixed_witness :
  let client := always asks_two in
  let fixed :=
    lit "{" ++ quoted "temperature" ++ lit ": "
    ++ [dquote] ++ lit "72" ++ [backslash] ++ lit "u00b0F" ++ [dquote]
    ++ lit ", " ++ quoted "condition" ++ lit ": " ++ quoted "Sunny"
    ++ lit ", " ++ quoted "humidity" ++ lit ": " ++ quoted "45%" ++ lit "}" in
  fixed = json_dumps mock_response
  /\ messages (step client (main client 1))
     = messages (main client 1) ++ [ToolResult (lit "call_1") fixed]
  /\ messages (step client (main client 2))
     = messages (main client 2) ++ [ToolResult (lit "call_2") fixed].
Proof.
  intros client fixed.
  eapply (tool_message_content_fixed client (main client 1) (main client 2)
            weather_call forecast_call [forecast_call] []);
    vm_compute; reflexivity.
Defined.

(** C2, refuted as stated: one tool call whose arguments do not parse ends
    the whole run with status 1, and no tool message for that call, marked
    as an error or not, is in the conversation. *)
Lemma failed_call_aborts_the_run :
  let st := main (always asks_broken) 3 in
  control st = SysExit 1
  /\ halted st = true
  /\ messages st
     = messages initial
       ++ [ AssistantDump {| content := None;
                             tool_calls := Some [weather_call; broken_call;
                                                 forecast_call] |};
            ToolResult (lit "call_1") (json_dumps mock_response) ]
  /\ existsb (fun m => match m with
                       | ToolResult id _ => str_eqb id (tc_id broken_call)
                       | _ => false
                       end) (messages st) = false
  /\ main (always asks_broken) 50 = st.
Proof. vm_compute. repeat split. Qed.

Lemma failed_tool_call_exits_witness :
  let client := always asks_broken in
  let st := main client 2 in
  control st = ForLoop [broken_call; forecast_call]
  /\ (let st' := step client st in
      control st' = SysExit 1
      /\ messages st' = messages st
      /\ events st' = EvPrint ToolCallFailed :: EvLoads broken_call :: events st
      /\ forall n, run client n st' = st').
Proof.
  intros client st. split; [vm_compute; reflexivity|].
  apply (failed_tool_call_exits client st broken_call [forecast_call]);
    vm_compute; reflexivity.
Defined.

(** C1, refuted as stated: with three tool calls of which the second has
    arguments that do not parse, the assistant message with the three calls
    is followed by one tool message, not three; and with tool calls next to
    the finish reason [stop] nothing is appended at all. *)
Lemma fewer_tool_messages_than_calls :
  (let st := main (always asks_broken) 3 in
   let assistant := {| content := None;
                       tool_calls := Some [weather_call; broken_call;
                                           forecast_call] |} in
   halted st = true
   /\ messages st
      = messages initial ++ [AssistantDump assistant; tool_result weather_call]
   /\ length (filter is_tool_result (messages st))
      <> length (requested assistant))
  /\ (let st := main (always stops_with_calls) 1 in
      halted st = true /\ messages st = messages initial).
Proof.
  split; [split; [|split]|]; try (vm_compute; repeat split; fail).
  vm_compute. discriminate.
Qed.

Lemma tool_messages_follow_calls_witness :
  let client := always asks_two in
  let st' := run client 4 initial in
  messages st'
  = messages initial
    ++ AssistantDump {| content := None;
                        tool_calls := Some [weather_call; forecast_call] |}
       :: map tool_result [weather_call; forecast_call]
  /\ control st' = LoopHead
  /\ length (filter is_tool_result (skipn 2 (messages st'))) = 2.
Proof.
  intros client st'.
  destruct (tool_messages_follow_calls client initial asks_two
              {| message := {| content := None;
                               tool_calls := Some [weather_call; forecast_call] |};
                 finish_reason := Some (lit "tool_calls") |} []
              eq_refl eq_refl eq_refl eq_refl eq_refl eq_refl)
    as (Hm & Hall & _).
  destruct (Hall eq_refl) as (Hc & Hl & _).
  split; [exact Hm|]. split; [exact Hc | exact Hl].
Defined.

(** C5, refuted as stated: a response without a finish reason (which is
    not the tool-calls indicator) and with a tool call does not end the
    loop, a second completion request follows; and a response with the
    finish reason [tool_calls] and tool calls of which one does not parse
    ends the run without another request. *)
Lemma exit_condition_differs :
  (let client := always asks_without_reason in
   control (main client 1) = ForLoop [weather_call]
   /\ control (main client 3) = LoopHead
   /\ requests_sent (main client 4) = 2)
  /\ (let client := always asks_broken in
      control (main client 3) = SysExit 1
      /\ requests_sent (main client 3) = 1
      /\ requests_sent (main client 50) = 1).
Proof. vm_compute. repeat split. Qed.

Lemma loop_exit_condition_witness :
  let client := scripted [asks_weather; answers_sunny] in
  let st := main client 3 in
  control st = LoopHead
  /\ control (step client st) = Returned
  /\ forall n, run client n (step client st) = step client st.
Proof.
  intros client st. split; [vm_compute; reflexivity|].
  destruct (loop_exit_condition client st answers_sunny eq_refl eq_refl)
    as (_ & Hchoice).
  destruct (Hchoice
              {| message := {| content := Some sunny; tool_calls := None |};
                 finish_reason := Some (lit "stop") |} [] eq_refl)
    as (_ & Hprintable).
  destruct (Hprintable eq_refl) as (Hiff & Hstay & _).
  assert (Hret : control (step client st) = Returned).
  { apply Hiff. right. left. reflexivity. }
  split; [exact Hret | exact (Hstay Hret)].
Defined.

(** C3, refuted as stated: with the endpoint that always asks for the same
    tool call, the run never stops, whatever the number of steps. *)
Lemma same_call_forever_never_stops :
  ~ exists n, halted (main (always asks_weather) n) = true.
Proof.
  intros [n H].
  rewrite (main_never_halts (always asks_weather) asks_weather
             {| message := {| content := None;
                              tool_calls := Some [weather_call] |};
                finish_reason := Some (lit "tool_calls") |} []
             (fun _ => eq_refl) eq_refl eq_refl eq_refl eq_refl eq_refl n)
    in H.
  discriminate.
Qed.

Lemma loop_has_no_cap_witness :
  let client := always asks_weather in
  (forall n, halted (main client n) = false)
  /\ forall k,
       let st := main client (k * 3) in
       control st = LoopHead
       /\ requests_sent st = k
       /\ length (messages st) = 2 + k * 2.
Proof.
  intros client.
  apply (loop_has_no_cap client asks_weather
           {| message := {| content := None;
                            tool_calls := Some [weather_call] |};
              finish_reason := Some (lit "tool_calls") |} []);
    try reflexivity.
  discriminate.
Defined.

Lemma assistant_message_precedes_results_witness :
  let st := main (scripted [asks_weather; answers_sunny]) 4 in
  exists before m between c,
    firstn 3 (messages st) = before ++ AssistantDump m :: between
    /\ forallb is_tool_result between = true
    /\ In c (requested m) /\ tc_id c = lit "call_1".
Proof.
  intros st.
  apply (proj1 (assistant_message_precedes_results
                  (scripted [asks_weather; answers_sunny]) 4)
           (firstn 3 (messages st)) (lit "call_1")
           (json_dumps mock_response) []).
  vm_compute. reflexivity.
Defined.

(** *** The exception classes *)

Example mro_of_TansiveAPIError :
  mro Cls.TansiveAPIError
  = [Cls.TansiveAPIError; Cls.TansiveError; Cls.Exception; Cls.BaseException].
Proof. reflexivity. Qed.

Lemma issubclass_refl (c : Cls.t) : issubclass c c = true.
Proof. destruct c; reflexivity. Qed.

Lemma issubclass_base (c b d : Cls.t) :
  base c = Some b -> issubclass b d = true -> issubclass c d = true.
Proof. destruct c, b, d; simpl; try discriminate; reflexivity. Qed.

(** C10.  Each of the five error classes, and the base itself, is a subclass
    of [TansiveError], which is the one base each of the five names, so
    [except TansiveError] catches every instance of them.  [status_code] and
    [response_body] of a [TansiveAPIError] and [last_error] of a
    [TansiveRetryError] are [None] when the constructor call does not supply
    them. *)
Theorem sdk_errors_share_one_base :
  (forall c, In c sdk_errors -> issubclass c Cls.TansiveError = true)
  /\ (forall c, In c sdk_errors -> c <> Cls.TansiveError ->
        base c = Some Cls.TansiveError)
  /\ (forall e, In (type_of e) sdk_errors -> catches Cls.TansiveError e = true)
  /\ (forall message body,
        status_code (TansiveAPIError__init__ message None body) = Some None)
  /\ (forall message code,
        response_body (TansiveAPIError__init__ message code None) = Some None)
  /\ (forall message,
        last_error (TansiveRetryError__init__ message None) = Some None).
Proof.
  split; [|split; [|split]].
  - intros c H. simpl in H.
    repeat (destruct H as [<-|H]; [reflexivity|]). contradiction.
  - intros c H Hne. simpl in H.
    repeat (destruct H as [<-|H]; [reflexivity || congruence|]). contradiction.
  - intros e H. unfold catches. simpl in H.
    repeat (destruct H as [<-|H]; [reflexivity|]). contradiction.
  - repeat split.
Qed.

Lemma sdk_errors_share_one_base_witness :
  issubclass Cls.TansiveRetryError Cls.TansiveError = true
  /\ catches Cls.TansiveError
       (TansiveRetryError__init__ (lit "gave up")
          (Some (Some (TansiveTimeoutError (lit "too slow"))))) = true
  /\ status_code (TansiveAPIError__init__ (lit "boom") None None) = Some None.
Proof.
  destruct sdk_errors_share_one_base as (Hsub & _ & Hcatch & Hcode & _).
  split; [apply Hsub; simpl; tauto|].
  split; [apply Hcatch; simpl; tauto | apply Hcode].
Defined.

(** *** The invoker *)

Example backoff_doubles :
  map (backoff three_timeouts) [1; 2; 3] = [100%N; 200%N; 400%N].
Proof. reflexivity. Qed.

Example validate_examples :
  map (validate MOCK_TOOLS)
      [weather_call; forecast_call; broken_call; misnamed_call;
       mistyped_call]
  = [true; false; false; false; false].
Proof. vm_compute. reflexivity. Qed.

(** A success after two timeouts is returned, with its two sleeps. *)
Example third_attempt_succeeds :
  invoke MOCK_TOOLS
         (fun attempt deadline =>
            if Nat.leb attempt 2 then always_times_out attempt deadline
            else Payload (json_dumps mock_response))
         weather_call three_timeouts
  = (inl {| tool_call_id := lit "call_1";
            output := json_dumps mock_response |},
     [Began 1; Attempted 1; Slept 100; Began 2; Attempted 2; Slept 200;
      Began 3; Attempted 3]).
Proof. vm_compute. reflexivity. Qed.

Example three_timeouts_then_retry_error :
  invoke MOCK_TOOLS always_times_out weather_call three_timeouts
  = (inr (TansiveRetryError exhausted_message
            (Some (TansiveTimeoutError (lit "deadline exceeded, attempt 3")))),
     [Began 1; Attempted 1; Slept 100; Began 2; Attempted 2; Slept 200;
      Began 3; Attempted 3]).
Proof. vm_compute. reflexivity. Qed.

Section Invocation.

Variables (catalog : list Tool) (surface : Surface) (call : ToolCall)
          (cfg : RetryConfig).

(** Retryable failures on every attempt that is left: all of them are
    made, and the error wraps the failure of the last. *)
Lemma attempts_exhaust (remaining attempt : nat) :
  (forall k, attempt <= k <= attempt + remaining ->
     exists f, surface k (perAttemptTimeout cfg) = Failed f
               /\ retryable cfg f = true) ->
  exists f,
    surface (attempt + remaining) (perAttemptTimeout cfg) = Failed f
    /\ fst (attempts cfg surface call remaining attempt)
       = inr (TansiveRetryError exhausted_message (Some (classify f)))
    /\ network_attempts (snd (attempts cfg surface call remaining attempt))
       = S remaining
    /\ retries (snd (attempts cfg surface call remaining attempt))
       = remaining.
Proof.
  revert attempt. induction remaining as [|remaining IH]; intros attempt Hall.
  - destruct (Hall attempt ltac:(lia)) as (f & Hf & Hr).
    exists f. rewrite Nat.add_0_r. cbn [attempts]. rewrite Hf, Hr.
    repeat split; auto.
  - destruct (Hall attempt ltac:(lia)) as (f & Hf & Hr).
    destruct (IH (S attempt)) as (g & Hg & Hres & Hn & Hs).
    { intros k Hk. apply Hall. lia. }
    exists g. replace (attempt + S remaining) with (S attempt + remaining) by lia.
    split; [exact Hg|]. cbn [attempts]. rewrite Hf, Hr.
    destruct (attempts cfg surface call remaining (S attempt)) as [r effects].
    cbn [fst snd] in *. unfold network_attempts, retries in *.
    cbn [filter length]. repeat split; auto.
Qed.


(** The surface is called until the attempt with the given index, whose
    failure is raised as classified: that call is the last effect. *)
Lemma attempts_stop (i remaining attempt : nat) (f : Failure) :
  i <= remaining ->
  (forall k, attempt <= k < attempt + i ->
     exists g, surface k (perAttemptTimeout cfg) = Failed g
               /\ retryable cfg g = true) ->
  surface (attempt + i) (perAttemptTimeout cfg) = Failed f ->
  retryable cfg f = false ->
  fst (attempts cfg surface call remaining attempt) = inr (classify f)
  /\ (exists earlier,
        snd (attempts cfg surface call remaining attempt)
        = earlier ++ [Attempted (attempt + i)])
  /\ network_attempts (snd (attempts cfg surface call remaining attempt))
     = S i
  /\ retries (snd (attempts cfg surface call remaining attempt)) = i.
Proof.
  revert remaining attempt.
  induction i as [|i IH]; intros remaining attempt Hi Hall Hf Hr.
  - rewrite Nat.add_0_r in *.
    destruct remaining; cbn [attempts]; rewrite Hf, Hr; cbn [fst snd];
      (split; [reflexivity|]); (split; [now exists []|]); now split.
  - destruct remaining as [|remaining]; [lia|].
    destruct (Hall attempt ltac:(lia)) as (g & Hg & Hgr).
    replace (attempt + S i) with (S attempt + i) in * by lia.
    destruct (IH remaining (S attempt)) as (Hres & (earlier & He) & Hn & Hs);
      [lia | intros k Hk; apply Hall; lia | exact Hf | exact Hr |].
    cbn [attempts]. rewrite Hg, Hgr.
    destruct (attempts cfg surface call remaining (S attempt)) as [r effects].
    cbn [fst snd] in *. unfold network_attempts, retries in *.
    cbn [filter length]. split; [exact Hres|]. split; [|now split; f_equal].
    exists (Attempted attempt :: Slept (backoff cfg attempt)
            :: Began (S attempt) :: earlier).
    now rewrite He.
Qed.


(** C7.  When the call passes validation and every attempt fails with a
    failure the configuration declares retryable, the invoker makes
    [maxAttempts] attempts (one when [maxAttempts] is below one), sleeps
    between them, and raises [Retry] whose [last_error] is the classified
    failure of the last attempt. *)
Theorem retry_exhaustion_wraps_last_failure :
  validate catalog call = true ->
  (forall k, 1 <= k <= Nat.max 1 (maxAttempts cfg) ->
     exists f, surface k (perAttemptTimeout cfg) = Failed f
               /\ retryable cfg f = true) ->
  exists f,
    surface (Nat.max 1 (maxAttempts cfg)) (perAttemptTimeout cfg) = Failed f
    /\ fst (invoke catalog surface call cfg)
       = inr (TansiveRetryError exhausted_message (Some (classify f)))
    /\ (forall e, fst (invoke catalog surface call cfg) = inr e ->
          type_of e = Cls.TansiveRetryError
          /\ last_error e = Some (Some (classify f)))
    /\ network_attempts (snd (invoke catalog surface call cfg))
       = Nat.max 1 (maxAttempts cfg)
    /\ retries (snd (invoke catalog surface call cfg))
       = Nat.max 1 (maxAttempts cfg) - 1.
Proof.
  intros Hv Hall. unfold invoke. rewrite Hv.
  destruct (attempts_exhaust (maxAttempts cfg - 1) 1) as (f & Hf & Hres & Hn & Hs).
  { intros k Hk. apply Hall. lia. }
  replace (1 + (maxAttempts cfg - 1)) with (Nat.max 1 (maxAttempts cfg))
    in Hf by lia.
  destruct (attempts cfg surface call (maxAttempts cfg - 1) 1) as [r effects].
  cbn [fst snd] in *.
  change (network_attempts (Began 1 :: effects))
    with (network_attempts effects).
  change (retries (Began 1 :: effects)) with (retries effects).
  exists f. split; [exact Hf|]. split; [exact Hres|].
  split; [|split; [rewrite Hn; lia | rewrite Hs; lia]].
  intros e He. rewrite Hres in He. inversion He; subst. now split.
Qed.

(** C8, as the invoker has it.  When the call passes validation, the
    attempts before the j-th fail retryably and the j-th, within
    [maxAttempts], fails with a status from 400 to 499, the invoker raises
    the [APIStatus] error with that status code and body, and that attempt
    is the last thing it does: no sleep and no attempt follows, whatever
    the retry configuration.  It has then made j attempts, so exactly one
    when the status is the failure of the first attempt. *)
Theorem client_error_is_not_retried (j : nat) (message : str) (code : Z)
    (body : str) :
  validate catalog call = true ->
  1 <= j <= Nat.max 1 (maxAttempts cfg) ->
  (forall k, 1 <= k < j ->
     exists f, surface k (perAttemptTimeout cfg) = Failed f
               /\ retryable cfg f = true) ->
  surface j (perAttemptTimeout cfg) = Failed (ErrorStatus message code body) ->
  (400 <= code <= 499)%Z ->
  fst (invoke catalog surface call cfg)
  = inr (TansiveAPIError message (Some code) (Some body))
  /\ (forall e, fst (invoke catalog surface call cfg) = inr e ->
        type_of e = Cls.TansiveAPIError /\ status_code e = Some (Some code))
  /\ (exists earlier,
        snd (invoke catalog surface call cfg) = earlier ++ [Attempted j])
  /\ network_attempts (snd (invoke catalog surface call cfg)) = j
  /\ retries (snd (invoke catalog surface call cfg)) = j - 1
  /\ (j = 1 ->
      invoke catalog surface call cfg
      = (inr (TansiveAPIError message (Some code) (Some body)),
         [Began 1; Attempted 1])).
Proof.
  intros Hv Hj Hall Hs Hcode.
  assert (Hr : retryable cfg (ErrorStatus message code body) = false).
  { unfold retryable.
    replace (Z.leb 500 code) with false by (symmetry; apply Z.leb_gt; lia).
    reflexivity. }
  destruct (attempts_stop (j - 1) (maxAttempts cfg - 1) 1
              (ErrorStatus message code body))
    as (Hres & (earlier & He) & Hn & Hsl).
  { lia. }
  { intros k Hk. apply Hall. lia. }
  { now replace (1 + (j - 1)) with j by lia. }
  { exact Hr. }
  replace (1 + (j - 1)) with j in He by lia.
  unfold invoke. rewrite Hv.
  destruct (attempts cfg surface call (maxAttempts cfg - 1) 1)
    as [r effects] eqn:Ea.
  cbn [fst snd] in *.
  change (network_attempts (Began 1 :: effects))
    with (network_attempts effects).
  change (retries (Began 1 :: effects)) with (retries effects).
  cbn [classify TansiveAPIError__init__ parameter] in Hres.
  split; [exact Hres|]. split.
  { intros e H. rewrite Hres in H. inversion H; subst. now split. }
  split; [exists (Began 1 :: earlier); now rewrite He|].
  split; [rewrite Hn; lia|]. split; [rewrite Hsl; lia|].
  intros ->. rewrite Hres. f_equal. f_equal.
  unfold network_attempts in Hn. rewrite He in *.
  destruct earlier as [|e1 earlier]; [reflexivity|].
  exfalso. clear - Ea Hs Hr.
  destruct (maxAttempts cfg - 1); cbn [attempts] in Ea; rewrite Hs, Hr in Ea;
    inversion Ea as [[Hx Hy]]; destruct earlier; discriminate.
Qed.

End Invocation.


Lemma retry_exhaustion_wraps_last_failure_witness :
  exists f,
    always_times_out 3 5000%N = Failed f
    /\ fst (invoke MOCK_TOOLS always_times_out weather_call three_timeouts)
       = inr (TansiveRetryError exhausted_message (Some (classify f)))
    /\ network_attempts
         (snd (invoke MOCK_TOOLS always_times_out weather_call three_timeouts))
       = 3.
Proof.
  destruct (retry_exhaustion_wraps_last_failure MOCK_TOOLS always_times_out
              weather_call three_timeouts)
    as (f & Hf & Hres & _ & Hn & _).
  - vm_compute. reflexivity.
  - intros k _. eexists. split; reflexivity.
  - exists f. split; [exact Hf|]. split; [exact Hres | exact Hn].
Defined.

(** C8, refuted as stated: on a surface whose first attempt times out and
    whose second answers with status 404, with timeouts retryable, the
    invocation fails with the [APIStatus] error of status 404 after two
    attempts and one retry, not after exactly one attempt. *)
Lemma client_error_after_a_retry :
  let outcome :=
    invoke MOCK_TOOLS times_out_then_not_found weather_call three_timeouts in
  outcome
  = (inr (TansiveAPIError (lit "Not Found") (Some 404%Z)
            (Some (lit "no such skill"))),
     [Began 1; Attempted 1; Slept 100; Began 2; Attempted 2])
  /\ network_attempts (snd outcome) <> 1
  /\ retries (snd outcome) <> 0.
Proof. vm_compute. repeat split; discriminate. Qed.

Lemma client_error_is_not_retried_witness :
  invoke MOCK_TOOLS not_found weather_call retry_everything
  = (inr (TansiveAPIError (lit "Not Found") (Some 404%Z)
            (Some (lit "no such skill"))),
     [Began 1; Attempted 1])
  /\ network_attempts
       (snd (invoke MOCK_TOOLS times_out_then_not_found weather_call
                    three_timeouts)) = 2.
Proof.
  split.
  - apply (client_error_is_not_retried MOCK_TOOLS not_found weather_call
             retry_everything 1 (lit "Not Found") 404 (lit "no such skill"));
      [vm_compute; reflexivity | cbn; lia | intros k Hk; lia | reflexivity
      | lia | reflexivity].
  - apply (client_error_is_not_retried MOCK_TOOLS times_out_then_not_found
             weather_call three_timeouts 2 (lit "Not Found") 404
             (lit "no such skill"));
      [vm_compute; reflexivity | cbn; lia | | reflexivity | lia].
    intros k Hk. assert (k = 1) as -> by lia.
    eexists. split; reflexivity.
Defined.

(** *** More of [main]: how a run ends, what it holds and what it sends *)

Section Coverage.

Variable openai_client : Client.

(** X1.  When the call to the endpoint raises, the script prints the
    failure on the error stream and exits with status 1: the message list is
    as it was, and nothing happens afterwards. *)
Theorem endpoint_failure_exits (st : State) :
  control st = LoopHead ->
  openai_client (request_for (messages st)) = None ->
  let st' := step openai_client st in
  control st' = SysExit 1
  /\ messages st' = messages st
  /\ events st'
     = EvPrint OpenAICallFailed :: EvCreate (request_for (messages st))
       :: events st
  /\ forall n, run openai_client n st' = st'.
Proof.
  intros Hc Hr st'. subst st'. unfold step. rewrite Hc. unfold loop_head.
  rewrite Hr. repeat split. intros n. now apply run_halted.
Qed.

(** X2.  A completion without any choice makes [response.choices[0]] raise
    [IndexError], which no handler catches: the run stops there, nothing is
    printed and nothing is appended. *)
Theorem no_choice_is_uncaught (st : State) (response : ChatCompletion) :
  control st = LoopHead ->
  openai_client (request_for (messages st)) = Some response ->
  choices response = [] ->
  let st' := step openai_client st in
  control st' = Uncaught (lit "IndexError")
  /\ messages st' = messages st
  /\ events st' = EvCreate (request_for (messages st)) :: events st
  /\ forall n, run openai_client n st' = st'.
Proof.
  intros Hc Hr Hch st'. subst st'. unfold step. rewrite Hc. unfold loop_head.
  rewrite Hr, Hch. repeat split. intros n. now apply run_halted.
Qed.

(** A step appends at the end, and only assistant messages and tool
    results. *)
Lemma step_extends (st : State) :
  exists suffix,
    messages (step openai_client st) = messages st ++ suffix
    /\ forallb (fun m => is_assistant m || is_tool_result m) suffix = true.
Proof.
  unfold step. destruct (control st) as [|[|c rest]| | |] eqn:Hc;
    [ head_cases openai_client st | | unfold for_body; destruct (try_body c)
    | | | ];
    cbn [messages goto emit append];
    first [ exists []; split; [now rewrite app_nil_r | reflexivity]
          | eexists [_]; split; reflexivity ].
Qed.

Lemma run_extends (n : nat) (st : State) :
  exists suffix,
    messages (run openai_client n st) = messages st ++ suffix
    /\ forallb (fun m => is_assistant m || is_tool_result m) suffix = true.
Proof.
  revert st. induction n as [|n IH]; intros st.
  - exists []. split; [now rewrite app_nil_r | reflexivity].
  - cbn [run]. destruct (step_extends st) as (s1 & E1 & F1).
    destruct (IH (step openai_client st)) as (s2 & E2 & F2).
    exists (s1 ++ s2). split.
    + now rewrite E2, E1, <- app_assoc.
    + now rewrite forallb_app, F1, F2.
Qed.

(** X3.  The message list only grows at its end: what it holds after [n]
    steps is still there, in place, after any further steps, and what comes
    after the two seed messages is assistant messages and tool results
    only. *)
Theorem messages_only_grow (n m : nat) :
  (exists suffix,
     messages (main openai_client (n + m))
     = messages (main openai_client n) ++ suffix)
  /\ exists added,
       messages (main openai_client n) = messages initial ++ added
       /\ forallb (fun x => is_assistant x || is_tool_result x) added = true.
Proof.
  split.
  - unfold main. rewrite run_add.
    destruct (run_extends m (run openai_client n initial)) as (s & E & _).
    now exists s.
  - destruct (run_extends n initial) as (s & E & F). now exists s.
Qed.

Lemma requests_faithful_suffix (newer older : list Event) :
  requests_faithful (newer ++ older) -> requests_faithful older.
Proof.
  induction newer as [|e newer IH]; [auto|].
  destruct e; cbn [app requests_faithful]; intuition.
Qed.

Lemma requests_faithful_step (st : State) :
  invariant st ->
  requests_faithful (events st) ->
  requests_faithful (events (step openai_client st)).
Proof.
  intros (_ & _ & Hm & _) H. unfold trace in Hm.
  unfold step. destruct (control st) as [|[|c rest]| | |] eqn:Hc;
    [ head_cases openai_client st | | unfold for_body; destruct (try_body c)
    | | | ];
    cbn [events goto emit append requests_faithful]; auto;
    rewrite <- Hm; auto.
Qed.

Lemma requests_faithful_main (n : nat) :
  requests_faithful (events (main openai_client n)).
Proof.
  induction n as [|n IH]; [exact I|].
  unfold main. rewrite run_S.
  apply requests_faithful_step; [apply invariant_main | exact IH].
Qed.

(** X4.  Every completion request of a run carries the model name, the
    tool list and the seed of the script, and as messages the seed messages
    followed by all the messages appended before the request, in order. *)
Theorem requests_carry_all_messages (n : nat) (earlier later : list Event)
    (r : Request) :
  trace (main openai_client n) = earlier ++ EvCreate r :: later ->
  req_messages r = messages initial ++ appended earlier
  /\ req_model r = model
  /\ req_tools r = MOCK_TOOLS
  /\ req_seed r = 0%Z.
Proof.
  intros Ht. pose proof (requests_faithful_main n) as H.
  unfold trace in Ht. apply rev_split in Ht. rewrite rev_involutive in Ht.
  rewrite Ht in H. apply requests_faithful_suffix in H.
  cbn [requests_faithful] in H. destruct H as [-> _].
  rewrite rev_involutive. repeat split.
Qed.

Lemma flat_map_snoc {A B : Type} (f : A -> list B) (l : list A) (x : A) :
  flat_map f (l ++ [x]) = flat_map f l ++ f x.
Proof. rewrite flat_map_app. cbn [flat_map]. now rewrite app_nil_r. Qed.

Lemma shaped_step (st : State) : shaped st -> shaped (step openai_client st).
Proof.
  intros (turns & Hne & H). unfold step.
  destruct (control st) as [|[|c rest]| | |] eqn:Hc.
  - (* the head of the loop *)
    head_cases openai_client st; exists turns; (split; [exact Hne|]);
      cbn [control goto messages emit append];
      try (exists []; rewrite app_nil_r; auto; fail);
      try (exact H; fail).
    all: exists (message choice), []; unfold requested; rewrite Hcalls;
      repeat split; [discriminate|]; rewrite H, <- app_assoc; reflexivity.
  - (* the end of the [for] loop *)
    destruct H as (m & done & Hreq & Hm & Hmsgs). rewrite app_nil_r in Hreq.
    exists (turns ++ [m]). split.
    + apply Forall_app. split; [exact Hne|]. now constructor.
    + cbn [control goto messages]. rewrite flat_map_snoc, Hmsgs.
      unfold turn. rewrite Hreq. reflexivity.
  - (* one tool call *)
    destruct H as (m & done & Hreq & Hm & Hmsgs).
    exists turns. split; [exact Hne|]. unfold for_body.
    destruct (try_body c) as [tool_response|] eqn:Ht.
    + cbn [control goto messages emit append].
      exists m, (done ++ [c]). split; [now rewrite <- app_assoc|].
      split; [exact Hm|]. rewrite Hmsgs, map_app, <- !app_assoc.
      cbn [map app]. unfold tool_result, try_body in *.
      destruct (json_loads (fn_arguments (tc_function c))); [|discriminate].
      inversion Ht; subst. reflexivity.
    + cbn [control goto messages emit].
      exists (AssistantDump m :: map tool_result done). split; [exact Hmsgs|].
      right. now exists m, done, (c :: rest).
  - exists turns. split; [exact Hne | now rewrite Hc].
  - exists turns. split; [exact Hne | now rewrite Hc].
  - exists turns. split; [exact Hne | now rewrite Hc].
Qed.

(** X5.  In every state [main] reaches, the message list is the two seed
    messages followed by whole turns, each an assistant message with at
    least one tool call followed by one tool result per call, in the order
    of the calls and with the id of the call; in the [for] loop one more
    turn is under way, with the results of the calls already run; after an
    exit the last turn may be cut short. *)
Theorem conversation_is_made_of_turns (n : nat) :
  shaped (main openai_client n).
Proof.
  unfold main. assert (H : shaped initial).
  { exists []. split; [constructor|]. cbn. reflexivity. }
  revert H. generalize initial. induction n as [|n IH]; intros st H; [exact H|].
  cbn [run]. apply IH, shaped_step, H.
Qed.

Lemma assistants_snoc (ms : list Message) (x : Message) :
  assistants (ms ++ [x])
  = assistants ms + (if is_assistant x then 1 else 0).
Proof.
  unfold assistants. rewrite filter_app, length_app. cbn [filter].
  now destruct (is_assistant x).
Qed.

Lemma counted_step (st : State) : counted st -> counted (step openai_client st).
Proof.
  unfold counted. intros H.
  destruct (control st) as [|[|c rest]| | |] eqn:Hc.
  - unfold step. rewrite Hc. head_cases openai_client st;
      cbn [control goto emit append messages];
      rewrite ?assistants_snoc; cbn [is_assistant];
      unfold requests_sent in *; cbn [events goto emit append filter length];
      lia.
  - unfold step. rewrite Hc. cbn [control goto]. exact H.
  - unfold step. rewrite Hc. unfold for_body.
    destruct (try_body c);
      cbn [control goto messages emit append];
      rewrite ?assistants_snoc; cbn [is_assistant];
      unfold requests_sent in *; cbn [events goto emit append filter]; lia.
  - unfold step. rewrite Hc, Hc. exact H.
  - unfold step. rewrite Hc, Hc. exact H.
  - unfold step. rewrite Hc, Hc. exact H.
Qed.

(** X6.  One completion request per pass of the loop: at the head of the
    loop and in the [for] loop the run has sent as many requests as it holds
    assistant messages; after [break] and after the uncaught exception it
    has sent one more, the one whose answer was not appended; after an exit
    with status 1 either of the two. *)
Theorem one_request_per_turn (n : nat) : counted (main openai_client n).
Proof.
  unfold main. assert (H : counted initial) by reflexivity.
  revert H. generalize initial. induction n as [|n IH]; intros st H; [exact H|].
  cbn [run]. apply IH, counted_step, H.
Qed.

Lemma parsed_prefix_length (calls : list ToolCall) :
  length (parsed_prefix calls) <= length calls.
Proof.
  induction calls as [|c l IH]; simpl; [lia|].
  destruct (parses c); simpl; lia.
Qed.

(** X7.  The [for] loop over the tool calls always comes to an end, within
    one step per call and one more: either back at the head of the loop,
    exactly when the arguments of every pending call parse, or out with
    status 1.  It sends no completion request, and it appends the results of
    the calls before the first that does not parse. *)
Theorem for_loop_finishes (st : State) (pending : list ToolCall) :
  control st = ForLoop pending ->
  exists k,
    k <= length pending + 1
    /\ let st' := run openai_client k st in
       (control st' = LoopHead \/ control st' = SysExit 1)
       /\ (control st' = LoopHead <-> forallb parses pending = true)
       /\ requests_sent st' = requests_sent st
       /\ messages st'
          = messages st ++ map tool_result (parsed_prefix pending).
Proof.
  intros Hc. exists (length (parsed_prefix pending) + 1).
  pose proof (parsed_prefix_length pending) as Hl. split; [lia|].
  destruct (run_for_loop openai_client pending st Hc) as (Hm & Hs & Hok & Hko).
  cbv zeta. destruct (forallb parses pending) eqn:Hall.
  - specialize (Hok eq_refl). repeat split; auto.
  - specialize (Hko eq_refl). repeat split; auto;
      rewrite Hko; intros; discriminate.
Qed.

Lemma stopped_as_written_step (st : State) :
  stopped_as_written openai_client st ->
  stopped_as_written openai_client (step openai_client st).
Proof.
  unfold stopped_as_written. intros H.
  destruct (control st) as [|[|c rest]| | |] eqn:Hc.
  - unfold step. rewrite Hc. head_cases openai_client st;
      cbn [control goto emit append events]; auto.
    + exists (messages st), (events st), response.
      split; [reflexivity|]. split; [exact Hr|]. now left.
    + exists (messages st), (events st), response.
      split; [reflexivity|]. split; [exact Hr|]. right.
      split; [reflexivity|]. now exists choice, others.
    + split; [reflexivity|]. left. now exists (messages st), (events st).
  - unfold step. now rewrite Hc.
  - unfold step. rewrite Hc. unfold for_body, try_body.
    destruct (json_loads (fn_arguments (tc_function c))) eqn:Hp;
      cbn [control goto emit append events]; [exact I|].
    split; [reflexivity|]. right. exists c, (events st).
    split; [reflexivity|]. unfold parses. now rewrite Hp.
  - unfold step. now rewrite Hc, Hc.
  - unfold step. now rewrite Hc, Hc.
  - unfold step. now rewrite Hc, Hc.
Qed.

(** X8.  A run stops in one of five ways only: by [break]; with status 1
    right after the line about the endpoint call that raised; with status 1
    right after the line about a tool call whose arguments do not parse;
    with [IndexError] right after a request that was answered without any
    choice; or with [UnicodeEncodeError] right after a request whose answer
    has a content that cannot be printed.  No other exit status and no other
    exception occurs, and a run that has stopped stays as it is. *)
Theorem runs_stop_as_written (n m : nat) :
  stopped_as_written openai_client (main openai_client n)
  /\ (halted (main openai_client n) = true ->
      main openai_client (n + m) = main openai_client n).
Proof.
  split.
  - unfold main. assert (H : stopped_as_written openai_client initial)
      by exact I.
    revert H. generalize initial.
    induction n as [|n IH]; intros st H; [exact H|].
    cbn [run]. apply IH, stopped_as_written_step, H.
  - intros H. unfold main. rewrite run_add. now apply run_halted.
Qed.

(** X9.  When a response whose content can be printed ends the loop, its
    message is not appended.  With a finish reason that is set and is not
    [tool_calls], the content is printed as the final response, also when
    it is [None]; when the loop ends only for lack of tool calls, no final
    response is printed.  In both cases a non-empty content is printed as
    thinking first. *)
Theorem final_answer_is_printed_not_appended (st : State)
    (response : ChatCompletion) (choice : Choice) (others : list Choice) :
  control st = LoopHead ->
  openai_client (request_for (messages st)) = Some response ->
  choices response = choice :: others ->
  printable choice = true ->
  final_answer choice = true \/ no_tool_calls choice = true ->
  let st' := step openai_client st in
  let thinking := match content (message choice) with
                  | Some (c :: text) => [EvPrint (Thinking (c :: text))]
                  | _ => []
                  end in
  let final := if final_answer choice
               then [EvPrint (FinalResponse (content (message choice)))]
               else [] in
  control st' = Returned
  /\ messages st' = messages st
  /\ trace st'
     = trace st ++ EvCreate (request_for (messages st)) :: thinking ++ final.
Proof.
  intros Hc Hr Hch Hp Hb st' thinking final. subst st' thinking final.
  unfold trace, step. rewrite Hc.
  rewrite (loop_head_printable _ _ _ _ _ Hr Hch Hp). cbv zeta.
  unfold no_tool_calls in *.
  destruct (final_answer choice).
  - destruct (content (message choice)) as [[|x text]|];
      cbn [control messages events goto emit rev app];
      rewrite <- ?app_assoc; repeat split.
  - destruct Hb as [Hb|Hb]; [discriminate|].
    destruct (tool_calls (message choice)) as [[|c rest]|]; try discriminate;
      destruct (content (message choice)) as [[|x text]|];
      cbn [control messages events goto emit rev app];
      rewrite <- ?app_assoc; repeat split.
Qed.


Lemma assistants_tool_results (calls : list ToolCall) :
  assistants (map tool_result calls) = 0.
Proof.
  unfold assistants. induction calls as [|c l IH]; [reflexivity|].
  cbn [map filter tool_result is_assistant]. exact IH.
Qed.

Lemma assistants_app (a b : list Message) :
  assistants (a ++ b) = assistants a + assistants b.
Proof. unfold assistants. now rewrite filter_app, length_app. Qed.

Lemma ends_loop_step (st : State) :
  control st = LoopHead ->
  ends_loop (openai_client (request_for (messages st))) = true ->
  halted (step openai_client st) = true
  /\ messages (step openai_client st) = messages st.
Proof.
  intros Hc He. unfold ends_loop in He.
  destruct (openai_client (request_for (messages st))) as [response|] eqn:Hr.
  - destruct (choices response) as [|choice others] eqn:Hch.
    + unfold step. rewrite Hc, (loop_head_no_choice _ _ _ Hr Hch). now split.
    + destruct (printable choice) eqn:Hp.
      * apply orb_true_iff in He.
        destruct (step_head_break openai_client st response choice others
                    Hc Hr Hch Hp He) as (Hret & Hm).
        split; [|exact Hm]. unfold halted. now rewrite Hret.
      * rewrite (step_head_unprintable _ _ _ _ _ Hc Hr Hch Hp). now split.
  - unfold step. rewrite Hc, (loop_head_raises _ _ Hr). now split.
Qed.

Section BoundedTurns.

Variable k : nat.

Hypothesis ends_by_then :
  forall ms, k <= assistants ms ->
    ends_loop (openai_client (request_for ms)) = true.

Lemma halts_from_head (d : nat) (st : State) :
  control st = LoopHead ->
  k - assistants (messages st) <= d ->
  exists n,
    halted (run openai_client n st) = true
    /\ assistants (messages (run openai_client n st))
       <= Nat.max k (assistants (messages st)).
Proof.
  revert st. induction d as [|d IH]; intros st Hc Hd.
  - exists 1. cbn [run].
    destruct (ends_loop_step st Hc) as (Hh & Hm);
      [apply ends_by_then; lia|].
    split; [exact Hh|]. rewrite Hm. lia.
  - destruct (ends_loop (openai_client (request_for (messages st)))) eqn:He.
    + exists 1. cbn [run]. destruct (ends_loop_step st Hc He) as (Hh & Hm).
      split; [exact Hh|]. rewrite Hm. lia.
    + assert (Hlt : assistants (messages st) < k).
      { destruct (Nat.lt_ge_cases (assistants (messages st)) k) as [L|G];
          [exact L|]. rewrite (ends_by_then _ G) in He. discriminate. }
      unfold ends_loop in He.
      destruct (openai_client (request_for (messages st)))
        as [response|] eqn:Hr; [|discriminate].
      destruct (choices response) as [|choice others] eqn:Hch; [discriminate|].
      apply orb_false_iff in He as [Hf Hn].
      destruct (printable choice) eqn:Hp.
      2:{ exists 1. cbn [run].
          rewrite (step_head_unprintable _ _ _ _ _ Hc Hr Hch Hp).
          split; [reflexivity|]. cbn [messages]. lia. }
      destruct (step_head_calls openai_client st response choice others
                  Hc Hr Hch Hp Hf Hn) as (Hm & Hctl & _).
      set (calls := requested (message choice)) in *.
      destruct (run_for_loop openai_client calls _ Hctl)
        as (Hm' & _ & Hok & Hko).
      set (st2 := run openai_client (length (parsed_prefix calls) + 1)
                      (step openai_client st)) in *.
      assert (Ha : assistants (messages st2) = S (assistants (messages st))).
      { rewrite Hm', Hm, !assistants_app, assistants_tool_results.
        unfold assistants at 2. cbn [filter is_assistant length]. lia. }
      assert (E : forall n, run openai_client
                              (S (length (parsed_prefix calls) + 1 + n)) st
                            = run openai_client n st2).
      { intros n. cbn [run]. now rewrite run_add. }
      destruct (forallb parses calls) eqn:Hall.
      * destruct (IH st2 (Hok eq_refl)) as (n & Hh & Hb); [lia|].
        exists (S (length (parsed_prefix calls) + 1 + n)).
        rewrite E. split; [exact Hh|]. lia.
      * exists (S (length (parsed_prefix calls) + 1 + 0)).
        rewrite E. cbn [run]. split; [|lia].
        unfold halted. now rewrite (Hko eq_refl).
Qed.

End BoundedTurns.

(** X10.  When the endpoint stops asking for tool calls once the request
    holds [k] assistant messages (its call raises, or it gives no choice, or
    a final finish reason, or no tool calls), the run stops after finitely
    many steps, with at most [k] assistant messages in the list. *)
Theorem bounded_turns_halt (k : nat) :
  (forall ms, k <= assistants ms ->
     ends_loop (openai_client (request_for ms)) = true) ->
  exists n,
    halted (main openai_client n) = true
    /\ assistants (messages (main openai_client n)) <= k.
Proof.
  intros H.
  destruct (halts_from_head k H k initial eq_refl) as (n & Hh & Hb).
  { cbn. lia. }
  exists n. split; [exact Hh|]. unfold main.
  change (assistants (messages initial)) with 0 in Hb. lia.
Qed.

End Coverage.

Section Spacing.

Variable openai_client : Client.

Lemma requests_spaced_step (st : State) :
  requests_spaced (events st)
  /\ (halted st = false -> appended_since_request (events st) = true) ->
  requests_spaced (events (step openai_client st))
  /\ (halted (step openai_client st) = false ->
      appended_since_request (events (step openai_client st)) = true).
Proof.
  intros (Hs & Ha). unfold halted in *. unfold step.
  destruct (control st) as [|[|c rest]| | |] eqn:Hc.
  - specialize (Ha eq_refl). head_cases openai_client st;
      cbn [control events goto emit append requests_spaced
           appended_since_request];
      repeat split; auto; discriminate.
  - cbn [control events goto]. split; [exact Hs | intros _; now apply Ha].
  - unfold for_body. destruct (try_body c);
      cbn [control events goto emit append requests_spaced
           appended_since_request];
      repeat split; auto; discriminate.
  - rewrite Hc. split; [exact Hs | discriminate].
  - rewrite Hc. split; [exact Hs | discriminate].
  - rewrite Hc. split; [exact Hs | discriminate].
Qed.

Lemma requests_spaced_main (n : nat) :
  requests_spaced (events (main openai_client n)).
Proof.
  assert (H : requests_spaced (events (main openai_client n))
              /\ (halted (main openai_client n) = false ->
                  appended_since_request (events (main openai_client n))
                  = true)); [|apply H].
  induction n as [|n IH]; [now split|].
  unfold main. rewrite run_S. apply requests_spaced_step. exact IH.
Qed.

Lemma requests_spaced_suffix (newer older : list Event) :
  requests_spaced (newer ++ older) -> requests_spaced older.
Proof.
  induction newer as [|e newer IH]; [auto|].
  destruct e; cbn [app requests_spaced]; intuition.
Qed.

Lemma appended_between (newer older : list Event) (r : Request) :
  appended_since_request (newer ++ EvCreate r :: older) = true ->
  appended (rev newer) <> [].
Proof.
  induction newer as [|e newer IH]; cbn [app appended_since_request rev].
  - discriminate.
  - intros H. rewrite appended_snoc.
    destruct e as [r'|line|m|c]; cbn [appended_since_request] in H;
      try discriminate; try (rewrite app_nil_r; now apply IH).
    intros E. now apply app_eq_nil in E as [_ E].
Qed.

Lemma appended_app (a b : list Event) :
  appended (a ++ b) = appended a ++ appended b.
Proof. unfold appended. apply flat_map_app. Qed.

(** X14.  A run never sends the same request twice: of two completion
    requests of a run, the later one carries all the messages of the earlier
    one and at least one more. *)
Theorem requests_never_repeat (n : nat) (before between later : list Event)
    (r1 r2 : Request) :
  trace (main openai_client n)
  = before ++ EvCreate r1 :: between ++ EvCreate r2 :: later ->
  exists added,
    added <> []
    /\ req_messages r2 = req_messages r1 ++ added
    /\ r1 <> r2.
Proof.
  intros Ht.
  assert (H1 : r1 = request_for (messages initial ++ appended before)).
  { pose proof (requests_faithful_main openai_client n) as H.
    pose proof Ht as Ht1. unfold trace in Ht1. apply rev_split in Ht1.
    rewrite rev_involutive in Ht1. rewrite Ht1 in H.
    apply requests_faithful_suffix in H. cbn [requests_faithful] in H.
    destruct H as [-> _]. now rewrite rev_involutive. }
  assert (Ht2 : trace (main openai_client n)
                = (before ++ EvCreate r1 :: between) ++ EvCreate r2 :: later).
  { rewrite Ht, <- app_assoc. reflexivity. }
  unfold trace in Ht2. apply rev_split in Ht2. rewrite rev_involutive in Ht2.
  assert (H2 : r2 = request_for
                      (messages initial
                       ++ appended (before ++ EvCreate r1 :: between))).
  { pose proof (requests_faithful_main openai_client n) as H.
    rewrite Ht2 in H. apply requests_faithful_suffix in H.
    cbn [requests_faithful] in H. destruct H as [-> _].
    now rewrite rev_involutive. }
  assert (Hne : appended between <> []).
  { pose proof (requests_spaced_main n) as H. rewrite Ht2 in H.
    apply requests_spaced_suffix in H. cbn [requests_spaced] in H.
    destruct H as [H _]. rewrite rev_app_distr in H. cbn [rev] in H.
    rewrite <- app_assoc in H. cbn [app] in H.
    apply appended_between in H. now rewrite rev_involutive in H. }
  assert (Hm : req_messages r2 = req_messages r1 ++ appended between).
  { rewrite H1, H2. cbn [req_messages request_for].
    rewrite appended_app. cbn [appended flat_map app].
    now rewrite app_assoc. }
  exists (appended between). split; [exact Hne|]. split; [exact Hm|].
  intros E. rewrite <- E in Hm.
  assert (Hl : length (req_messages r1)
               = length (req_messages r1 ++ appended between))
    by (now rewrite <- Hm).
  rewrite length_app in Hl.
  destruct (appended between); [now apply Hne | simpl in Hl; lia].
Qed.

End Spacing.

Lemma endpoint_failure_exits_witness :
  let client := Stubs.scripted [asks_weather] in
  let st := main client 3 in
  control st = LoopHead
  /\ client (request_for (messages st)) = None
  /\ control (step client st) = SysExit 1
  /\ messages (step client st) = messages st.
Proof.
  intros client st.
  assert (Hc : control st = LoopHead) by (vm_compute; reflexivity).
  assert (Hr : client (request_for (messages st)) = None)
    by (vm_compute; reflexivity).
  destruct (endpoint_failure_exits client st Hc Hr) as (H1 & H2 & _).
  repeat split; assumption.
Defined.

Lemma no_choice_is_uncaught_witness :
  let client := always no_choice in
  control (step client initial) = Uncaught (lit "IndexError")
  /\ messages (step client initial) = messages initial
  /\ forall n, run client n (step client initial) = step client initial.
Proof.
  intros client.
  destruct (no_choice_is_uncaught client initial no_choice
              eq_refl eq_refl eq_refl) as (H1 & H2 & _ & H4).
  repeat split; assumption.
Defined.

Lemma requests_carry_all_messages_witness :
  let client := scripted [asks_weather; answers_sunny] in
  let st := main client 4 in
  trace st
  = firstn 4 (trace st) ++ EvCreate (request_for (messages st))
    :: skipn 5 (trace st)
  /\ req_messages (request_for (messages st))
     = messages initial
       ++ [ AssistantDump {| content := None;
                             tool_calls := Some [weather_call] |};
            tool_result weather_call ].
Proof.
  intros client st.
  assert (Ht : trace st
               = firstn 4 (trace st) ++ EvCreate (request_for (messages st))
                 :: skipn 5 (trace st)) by (vm_compute; reflexivity).
  split; [exact Ht|].
  destruct (requests_carry_all_messages client 4 _ _ _ Ht) as (Hm & _).
  rewrite Hm. vm_compute. reflexivity.
Defined.

Lemma for_loop_finishes_witness :
  let client := always asks_broken in
  let st := main client 1 in
  control st = ForLoop [weather_call; broken_call; forecast_call]
  /\ exists k,
       k <= 4
       /\ (control (run client k st) = LoopHead
           \/ control (run client k st) = SysExit 1)
       /\ messages (run client k st)
          = messages st ++ map tool_result
                             (parsed_prefix [weather_call; broken_call;
                                             forecast_call]).
Proof.
  intros client st.
  assert (Hc : control st
               = ForLoop [weather_call; broken_call; forecast_call])
    by (vm_compute; reflexivity).
  split; [exact Hc|].
  destruct (for_loop_finishes client st _ Hc) as (k & Hk & Hend & _ & _ & Hm).
  exists k. repeat split; assumption.
Defined.

Lemma final_answer_is_printed_not_appended_witness :
  let client := scripted [asks_weather; answers_sunny] in
  let st := main client 3 in
  control (step client st) = Returned
  /\ messages (step client st) = messages st
  /\ trace (step client st)
     = trace st ++ [ EvCreate (request_for (messages st));
                     EvPrint (Thinking sunny);
                     EvPrint (FinalResponse (Some sunny)) ].
Proof.
  intros client st.
  apply (final_answer_is_printed_not_appended client st answers_sunny
           {| message := {| content := Some sunny; tool_calls := None |};
              finish_reason := Some (lit "stop") |} []);
    try (vm_compute; reflexivity).
  left. vm_compute. reflexivity.
Defined.

Lemma bounded_turns_halt_witness :
  exists n,
    halted (main (scripted [asks_weather; answers_sunny]) n) = true
    /\ assistants (messages (main (scripted [asks_weather; answers_sunny]) n))
       <= 1.
Proof.
  apply (bounded_turns_halt (scripted [asks_weather; answers_sunny]) 1).
  intros ms H. unfold scripted. cbn [req_messages request_for].
  fold (assistants ms). destruct (assistants ms) as [|[|a]];
    [lia | vm_compute; reflexivity | destruct a; reflexivity].
Defined.

(** *** More of the exception classes *)

(** X11.  Being a subclass, as [issubclass] and [except] see it, is an
    order on the classes: every class is a subclass of itself, subclasses of
    subclasses are subclasses, and two classes that are subclasses of each
    other are the same class. *)
Theorem issubclass_is_an_order :
  (forall c, issubclass c c = true)
  /\ (forall a b c, issubclass a b = true -> issubclass b c = true ->
        issubclass a c = true)
  /\ (forall a b, issubclass a b = true -> issubclass b a = true -> a = b).
Proof.
  split; [|split].
  - intros c. destruct c; reflexivity.
  - intros a b c. destruct a, b, c; vm_compute; intros; congruence.
  - intros a b. destruct a, b; vm_compute; intros; congruence.
Qed.

(** X12.  The error classes the package exports are exactly the classes
    below [TansiveError], itself included: neither built-in class is among
    them and no class of [exceptions.py] is left out. *)
Theorem exported_errors_are_the_TansiveError_subclasses (c : Cls.t) :
  In c sdk_errors <-> issubclass c Cls.TansiveError = true.
Proof.
  destruct c; vm_compute; split; intros H; try discriminate; auto 10;
    repeat (destruct H as [H|H]; [discriminate|]); contradiction.
Qed.

(** X13.  A handler for one of the five classes below the base catches the
    instances of that class and no others: not an instance of another of the
    five, not a bare [TansiveError], not an exception of another module.  A
    [TansiveRetryError] is caught by its own class whatever it wraps. *)
Theorem leaf_handler_catches_its_own (handler : Cls.t) (e : error) :
  In handler leaf_errors ->
  (catches handler e = true <-> type_of e = handler).
Proof.
  intros H. unfold catches. simpl in H.
  repeat (destruct H as [<-|H];
          [destruct e; vm_compute; split; intros; congruence|]).
  contradiction.
Qed.

Lemma leaf_handler_catches_its_own_witness :
  let wrapped :=
    TansiveRetryError__init__ (lit "gave up")
      (Some (Some (TansiveAPIError__init__ (lit "boom") (Some (Some 503%Z))
                     None))) in
  In Cls.TansiveAPIError leaf_errors
  /\ (catches Cls.TansiveAPIError wrapped = true
      <-> type_of wrapped = Cls.TansiveAPIError)
  /\ catches Cls.TansiveAPIError wrapped = false.
Proof.
  intros wrapped.
  assert (H : In Cls.TansiveAPIError leaf_errors) by (simpl; tauto).
  split; [exact H|]. split.
  - exact (leaf_handler_catches_its_own Cls.TansiveAPIError wrapped H).
  - reflexivity.
Defined.

Lemma requests_never_repeat_witness :
  let client := scripted [asks_weather; answers_sunny] in
  let st := main client 4 in
  exists added,
    added <> []
    /\ req_messages (request_for (messages st))
       = req_messages (request_for (messages initial)) ++ added
    /\ request_for (messages initial) <> request_for (messages st).
Proof.
  intros client st.
  apply (requests_never_repeat client 4 []
           [ EvAppend (AssistantDump {| content := None;
                                        tool_calls := Some [weather_call] |});
             EvLoads weather_call;
             EvAppend (tool_result weather_call) ]
           (skipn 5 (trace st))).
  vm_compute. reflexivity.
Defined.

